(** * Account automation service: task state machine, retry controller,
      signup driver, email verification and worker pool.

    Shallow embedding of [WorkerPool] and [AccountAutomationService]
    (server/routes.ts).  The service is modelled
    as an exception-and-state monad over a [World] holding the service's
    maps, the cookie directory, the database tables and the three browser
    handles of the running attempt.  Everything the outside world decides
    (browser, mailbox, database, clock, random numbers) is read from an
    explicit environment. *)

From Stdlib Require Import ZArith String Ascii List Bool Lia.
From stdpp Require Import base option list gmap strings pretty.

Local Open Scope string_scope.
Local Open Scope Z_scope.
Local Open Scope list_scope.

(** ** Strings as JavaScript uses them *)

Module JsString.

(** [s.includes(sub)] *)
Fixpoint includes (s sub : string) : bool :=
  String.prefix sub s ||
  match s with
  | EmptyString => false
  | String _ s' => includes s' sub
  end.

(** Canonicalisation of the [i] flag (non-unicode mode): only the ASCII
    letters fold onto each other. *)
Definition fold_case (c : ascii) : ascii :=
  let n := nat_of_ascii c in
  if (Nat.leb 97 n && Nat.leb n 122)%bool then ascii_of_nat (n - 32) else c.

Definition ascii_eqb_ci (a b : ascii) : bool :=
  Ascii.eqb (fold_case a) (fold_case b).

(** Rest of [s] after the literal [lit] read case-insensitively. *)
Fixpoint strip_ci (lit s : string) : option string :=
  match lit, s with
  | EmptyString, _ => Some s
  | String a lit', String b s' =>
      if ascii_eqb_ci a b then strip_ci lit' s' else None
  | String _ _, EmptyString => None
  end.

(** Line terminators, which [.] does not match: LF, CR and the UTF-8
    encodings of U+2028 and U+2029.  The result is the number of bytes
    of the terminator at the head of [s], 0 when there is none. *)
Definition line_terminator (s : string) : nat :=
  match s with
  | String c rest =>
      let n := nat_of_ascii c in
      if (Nat.eqb n 10 || Nat.eqb n 13)%bool then 1%nat
      else match rest with
           | String c2 (String c3 _) =>
               if (Nat.eqb n 226 && Nat.eqb (nat_of_ascii c2) 128 &&
                   (Nat.eqb (nat_of_ascii c3) 168 || Nat.eqb (nat_of_ascii c3) 169))%bool
               then 3%nat else 0%nat
           | _ => 0%nat
           end
  | EmptyString => 0%nat
  end.

(** [.*] followed by the continuation [k]. *)
Fixpoint dotstar_then (k : string -> bool) (s : string) : bool :=
  k s ||
  match s with
  | EmptyString => false
  | String _ s' =>
      match line_terminator s with
      | O => dotstar_then k s'
      | _ => false
      end
  end.

(** A pattern [l1.*l2.*...ln] of literals, anchored at the head of [s]. *)
Fixpoint segments_here (segs : list string) : string -> bool :=
  match segs with
  | [] => fun _ => true
  | lit :: rest =>
      fun s =>
        match strip_ci lit s with
        | Some s' =>
            match rest with
            | [] => true
            | _ => dotstar_then (segments_here rest) s'
            end
        | None => false
        end
  end.

(** [/l1.*l2.*...ln/i.test(s)] *)
Fixpoint test_ci (segs : list string) (s : string) : bool :=
  segments_here segs s ||
  match s with
  | EmptyString => false
  | String _ s' => test_ci segs s'
  end.

(** [s.trim()] restricted to ASCII white space. *)
Definition is_space (c : ascii) : bool :=
  let n := nat_of_ascii c in
  (Nat.eqb n 32 || (Nat.leb 9 n && Nat.leb n 13))%bool.

Fixpoint trim_left (s : string) : string :=
  match s with
  | String c s' => if is_space c then trim_left s' else s
  | EmptyString => EmptyString
  end.

Fixpoint rev_string (acc s : string) : string :=
  match s with
  | EmptyString => acc
  | String c s' => rev_string (String c acc) s'
  end.

Definition trim (s : string) : string :=
  rev_string "" (trim_left (rev_string "" (trim_left s))).

Definition is_empty (s : string) : bool :=
  match s with EmptyString => true | _ => false end.

End JsString.

(** ** Data model (shared/schema.ts) *)

Inductive Status := pending | running | completed | failed.

Global Instance Status_eq_dec : EqDecision Status.
Proof. solve_decision. Defined.


Module Step.
Record t := mk { id : string; label : string; status : Status }.
Definition with_status (s : Status) (x : t) : t :=
  {| id := id x; label := label x; status := s |}.
End Step.

Inductive Provider := replit | github | google | other.

Module Task.
Record t := mk {
  id : string;
  provider : Provider;
  email : string;
  password : option string;
  status : Status;
  steps : list Step.t;
  screenshots : list string;
  logs : list string;
  debugLogs : list string;
  errorMessages : list string;
  createdAt : Z;
  completedAt : option Z
}.

Definition with_status (s : Status) (x : t) : t :=
  mk (id x) (provider x) (email x) (password x) s (steps x) (screenshots x)
     (logs x) (debugLogs x) (errorMessages x) (createdAt x) (completedAt x).
Definition with_steps (l : list Step.t) (x : t) : t :=
  mk (id x) (provider x) (email x) (password x) (status x) l (screenshots x)
     (logs x) (debugLogs x) (errorMessages x) (createdAt x) (completedAt x).
Definition with_screenshots (l : list string) (x : t) : t :=
  mk (id x) (provider x) (email x) (password x) (status x) (steps x) l
     (logs x) (debugLogs x) (errorMessages x) (createdAt x) (completedAt x).
Definition with_logs (l : list string) (x : t) : t :=
  mk (id x) (provider x) (email x) (password x) (status x) (steps x)
     (screenshots x) l (debugLogs x) (errorMessages x) (createdAt x)
     (completedAt x).
Definition with_debugLogs (l : list string) (x : t) : t :=
  mk (id x) (provider x) (email x) (password x) (status x) (steps x)
     (screenshots x) (logs x) l (errorMessages x) (createdAt x)
     (completedAt x).
Definition with_errorMessages (l : list string) (x : t) : t :=
  mk (id x) (provider x) (email x) (password x) (status x) (steps x)
     (screenshots x) (logs x) (debugLogs x) l (createdAt x) (completedAt x).
Definition with_completedAt (c : option Z) (x : t) : t :=
  mk (id x) (provider x) (email x) (password x) (status x) (steps x)
     (screenshots x) (logs x) (debugLogs x) (errorMessages x) (createdAt x) c.
End Task.

(** A browser cookie as Playwright reports it. *)
Record Cookie := {
  cookie_name : string;
  cookie_value : string;
  cookie_domain : string;
  cookie_path : string;
  cookie_expires : Z;
  cookie_httpOnly : bool;
  cookie_secure : bool;
  cookie_sameSite : option string
}.

(** Rows of the two tables of the account store. *)
Record AccountRow := {
  row_email : string;
  row_password : option string;
  row_verified : bool;
  row_verified_at : option Z
}.

Record CookieRow := {
  row_account_id : string;
  row_name : string;
  row_value : string;
  row_domain : string;
  row_path : string;
  row_expires : option Z;
  row_http_only : bool;
  row_secure : bool;
  row_same_site : option string
}.

(** A message of the mailbox ([Message] of shared/schema.ts; the fields the
    service reads). *)
Record Message := {
  msg_id : string;
  fromAddress : string;
  htmlContent : option string;
  textContent : option string
}.

(** ** The world the service runs in *)

(** A JavaScript variable holding a browser object: still [null], holding a
    live object, or holding one on which [close()] was called. *)
Inductive Handle := Null | Open | Closed.

Inductive Resource := ThePage | TheContext | TheBrowser.

(** A subscriber registered with [onTaskUpdate].  Subscribers are observers:
    an invocation is recorded with the task as the subscriber sees it. *)
Definition Callback := nat.

Inductive Event :=
| EvNotify (taskId : string) (cb : Callback) (seen : Task.t)
| EvStatus (taskId : string) (s : Status)
| EvAttempt (taskId : string) (n : nat)
| EvSleep (ms : Z)
| EvInterval (taskId : string) (on : bool)
| EvLoadCookies (taskId : string) (found : bool)
| EvSaveCookies (taskId : string) (cookies : list Cookie)
| EvSaveAccount (row : AccountRow)
| EvSaveCookieRows (rows : list CookieRow)
| EvClose (r : Resource).

Record World := {
  tasks : gmap string Task.t;
  updateCallbacks : gmap string (list Callback);
  cookieFiles : gmap string (list Cookie);
  replit_accounts : list AccountRow;
  cookies_table : list CookieRow;
  browser : Handle;
  context : Handle;
  page : Handle;
  trace : list Event
}.

Definition with_tasks (f : gmap string Task.t -> gmap string Task.t) (w : World) : World :=
  {| tasks := f (tasks w); updateCallbacks := updateCallbacks w;
     cookieFiles := cookieFiles w; replit_accounts := replit_accounts w;
     cookies_table := cookies_table w; browser := browser w;
     context := context w; page := page w; trace := trace w |}.


Definition with_cookieFiles (f : gmap string (list Cookie) -> gmap string (list Cookie))
    (w : World) : World :=
  {| tasks := tasks w; updateCallbacks := updateCallbacks w;
     cookieFiles := f (cookieFiles w); replit_accounts := replit_accounts w;
     cookies_table := cookies_table w; browser := browser w;
     context := context w; page := page w; trace := trace w |}.

Definition with_database (a : list AccountRow) (c : list CookieRow) (w : World) : World :=
  {| tasks := tasks w; updateCallbacks := updateCallbacks w;
     cookieFiles := cookieFiles w; replit_accounts := a; cookies_table := c;
     browser := browser w; context := context w; page := page w;
     trace := trace w |}.

Definition with_handles (b c p : Handle) (w : World) : World :=
  {| tasks := tasks w; updateCallbacks := updateCallbacks w;
     cookieFiles := cookieFiles w; replit_accounts := replit_accounts w;
     cookies_table := cookies_table w; browser := b; context := c; page := p;
     trace := trace w |}.

Definition record (evs : list Event) (w : World) : World :=
  {| tasks := tasks w; updateCallbacks := updateCallbacks w;
     cookieFiles := cookieFiles w; replit_accounts := replit_accounts w;
     cookies_table := cookies_table w; browser := browser w;
     context := context w; page := page w; trace := trace w ++ evs |}.

(** The task object is shared by reference between the [tasks] map and the
    code that runs it; a mutation of the object is a mutation of the entry. *)
Definition on_task (taskId : string) (f : Task.t -> Task.t) : World -> World :=
  with_tasks (alter f taskId).

Definition empty_world : World :=
  {| tasks := ∅; updateCallbacks := ∅; cookieFiles := ∅;
     replit_accounts := []; cookies_table := [];
     browser := Null; context := Null; page := Null; trace := [] |}.

(** ** Exceptions and state *)

Inductive Res (A : Type) :=
| Ok (a : A)
| Throw (message : string).
Arguments Ok {A} a.
Arguments Throw {A} message.

Definition M (A : Type) : Type := World -> Res A * World.

Definition ret {A} (a : A) : M A := fun w => (Ok a, w).

Definition throw {A} (message : string) : M A := fun w => (Throw message, w).

Definition bind {A B} (m : M A) (k : A -> M B) : M B :=
  fun w =>
    match m w with
    | (Ok a, w') => k a w'
    | (Throw e, w') => (Throw e, w')
    end.

(** [try { m } catch (error) { h error.message }] *)
Definition try_catch {A} (m : M A) (h : string -> M A) : M A :=
  fun w =>
    match m w with
    | (Ok a, w') => (Ok a, w')
    | (Throw e, w') => h e w'
    end.

(** [try { m } finally { f }] with a finaliser that cannot throw. *)
Definition try_finally {A} (m : M A) (f : World -> World) : M A :=
  fun w => let '(r, w') := m w in (r, f w').

Definition modify (f : World -> World) : M unit := fun w => (Ok tt, f w).

Definition gets {A} (f : World -> A) : M A := fun w => (Ok (f w), w).

Declare Scope service_scope.
Delimit Scope service_scope with service.
Notation "x <- m ;; k" := (bind m (fun x => k))
  (at level 100, m at next level, right associativity) : service_scope.
Notation "m ;; k" := (bind m (fun _ => k))
  (at level 100, right associativity) : service_scope.
Local Open Scope service_scope.

(** What an awaited call into the outside world does: it resolves to a
    value or rejects with an error carrying a message. *)
Inductive Outcome (A : Type) :=
| Resolves (a : A)
| Rejects (message : string).
Arguments Resolves {A} a.
Arguments Rejects {A} message.

Definition await {A} (o : Outcome A) : M A :=
  match o with
  | Resolves a => ret a
  | Rejects e => throw e
  end.

(** [await new Promise(resolve => setTimeout(resolve, ms))] *)
Definition sleep (ms : Z) : M unit := modify (record [EvSleep ms]).

(** [Math.floor(Math.random() * n)]: the draw is [u / 2^53] for a 53-bit
    integer [u]; any integer is read modulo [2^53]. *)
Definition random_int (u n : Z) : Z := ((u mod 2 ^ 53) * n) / 2 ^ 53.

(** ** The service's configuration and its environment *)

(** [debugMode] and [captchaSolver] of the service object.  The solver is
    created in the constructor from [CAPTCHA_API_KEY] and is [null] without
    a key; both are read-only during a task. *)
Record Service := {
  debugMode : bool;
  captchaSolver : option string
}.

Definition MAX_RETRIES : nat := 3.
Definition MAX_WORKERS : nat := 3.

(** Reply of the account store to an insert. *)
Inductive InsertReply :=
| Inserted (account_id : string)
| Refused (message : string).

(** What the outside world does during one attempt, call by call in program
    order.  Calls between which the task is not touched are grouped. *)
Record Scenario := {
  (* attemptSignup, up to the submission *)
  fresh_context_draw : Z;
  viewport_draw : Z;
  launch : Outcome unit;
  newContext : Outcome unit;
  addCookies : Outcome unit;
  newPage : Outcome unit;
  goto_signup : Outcome unit;
  initial_delay_draw : Z;
  humanize : Outcome unit;
  screenshot1 : Outcome string;
  emailPasswordButton : Outcome bool;
  emailPasswordClick : Outcome unit;
  emailInput : Outcome bool;
  typeEmail : Outcome unit;
  passwordInput : Outcome bool;
  typePassword : Outcome unit;
  beforeSubmit : Outcome unit;
  createButton : Outcome bool;
  screenshotMissing : Outcome string;
  clickCreate : Outcome unit;
  wait_time_draw : Z;
  screenshot2 : Outcome string;
  pageContent : Outcome string;
  currentUrl : string;
  (* captcha resolution *)
  sitekey : Outcome (option string);
  recaptcha : Outcome string;
  injectToken : Outcome unit;
  retryButton : Outcome bool;
  retryClick : Outcome unit;
  retryWait : Outcome unit;
  newUrl : string;
  (* after the submission *)
  contextCookies : Outcome (list Cookie);
  writeCookieFile : Outcome unit;
  errorElements : Outcome (list (option string));
  (* verifyEmail *)
  mailbox : nat -> list Message;
  messageDetails : string -> option Message;
  goto_verify : Outcome unit;
  finalCookies : Outcome (list Cookie);
  closeContext : Outcome unit;
  closeBrowser : Outcome unit;
  closeContextCatch : Outcome unit;
  closeBrowserCatch : Outcome unit;
  (* saveAccountToDatabase *)
  insertAccount : Outcome InsertReply;
  insertCookies : Outcome bool;
  verified_at : Z
}.

(** What the outside world does during one task. *)
Record Env := {
  nanoid : string;
  created_now : Z;
  completed_now : Z;
  backoff_draw : nat -> Z;
  scenario : nat -> Scenario
}.

(** ** Accessors on the task object *)

Definition task_email (taskId : string) (w : World) : string :=
  from_option Task.email "" (tasks w !! taskId).

Definition task_password (taskId : string) (w : World) : option string :=
  tasks w !! taskId ≫= Task.password.

Definition task_status (taskId : string) (w : World) : option Status :=
  Task.status <$> tasks w !! taskId.

(** [task.steps.find(s => s.id === stepId)] followed by an assignment to the
    step found: the first step of that id, if any. *)
Fixpoint set_step (stepId : string) (s : Status) (l : list Step.t) : list Step.t :=
  match l with
  | [] => []
  | x :: l' =>
      if String.eqb (Step.id x) stepId then Step.with_status s x :: l'
      else x :: set_step stepId s l'
  end.

Definition push {A} (x : A) (l : list A) : list A := l ++ [x].

Definition push_log (l : string) (t : Task.t) : Task.t :=
  Task.with_logs (push l (Task.logs t)) t.
Definition push_debugLog (l : string) (t : Task.t) : Task.t :=
  Task.with_debugLogs (push l (Task.debugLogs t)) t.
Definition push_screenshot (l : string) (t : Task.t) : Task.t :=
  Task.with_screenshots (push l (Task.screenshots t)) t.
Definition push_errorMessage (l : string) (t : Task.t) : Task.t :=
  Task.with_errorMessages (push l (Task.errorMessages t)) t.

(** The notifications one call of [notifyUpdate] makes, in order. *)
Definition notifications (taskId : string) (w : World) : list Event :=
  match tasks w !! taskId with
  | Some t => map (fun cb => EvNotify taskId cb t)
                  (default [] (updateCallbacks w !! taskId))
  | None => []
  end.

Definition close_quietly (h : Handle) : Handle :=
  match h with Null => Null | _ => Closed end.

Definition closed_events (b c p : Handle) : list Event :=
  (match p with Null => [] | _ => [EvClose ThePage] end) ++
  (match c with Null => [] | _ => [EvClose TheContext] end) ++
  (match b with Null => [] | _ => [EvClose TheBrowser] end).

(** [task.status = s], recorded. *)
Definition set_status (taskId : string) (s : Status) (w : World) : World :=
  record [EvStatus taskId s] (on_task taskId (Task.with_status s) w).

(** ** Link extraction of the verification poller *)

Module Link.

Definition prefix : string := "https://replit.com/verify".

Definition byte (s : string) (i : nat) : nat :=
  match String.get i s with Some c => nat_of_ascii c | None => 256%nat end.

(** Characters of the class [\s], in UTF-8. *)
Definition white_space (s : string) : bool :=
  let b0 := byte s 0 in let b1 := byte s 1 in let b2 := byte s 2 in
  (Nat.eqb b0 32 || (Nat.leb 9 b0 && Nat.leb b0 13)
   || (Nat.eqb b0 194 && Nat.eqb b1 160)
   || (Nat.eqb b0 225 && Nat.eqb b1 154 && Nat.eqb b2 128)
   || (Nat.eqb b0 226 && Nat.eqb b1 128 &&
       ((Nat.leb 128 b2 && Nat.leb b2 138) || Nat.eqb b2 168 ||
        Nat.eqb b2 169 || Nat.eqb b2 175))
   || (Nat.eqb b0 226 && Nat.eqb b1 129 && Nat.eqb b2 159)
   || (Nat.eqb b0 227 && Nat.eqb b1 128 && Nat.eqb b2 128)
   || (Nat.eqb b0 239 && Nat.eqb b1 187 && Nat.eqb b2 191))%bool.

(** The negated class of the pattern: white space, the double quote (34)
    and the angle brackets (60, 62) end the link. *)
Definition stops (s : string) : bool :=
  let b0 := byte s 0 in
  (white_space s || Nat.eqb b0 34 || Nat.eqb b0 60 || Nat.eqb b0 62)%bool.

Fixpoint link_tail (s : string) : string :=
  match s with
  | EmptyString => EmptyString
  | String c s' => if stops s then EmptyString else String c (link_tail s')
  end.

(** [content.match(...)] with the pattern of [verifyEmail]: the first
    occurrence of [prefix], extended up to the first stopping character. *)
Fixpoint find (content : string) : option string :=
  if String.prefix prefix content
  then Some (prefix +:+ link_tail (String.substring (String.length prefix)
                                     (String.length content) content))
  else match content with
       | EmptyString => None
       | String _ s' => find s'
       end.

End Link.

(** [htmlContent || textContent || ''] *)
Definition truthy (o : option string) : option string :=
  match o with
  | Some s => if JsString.is_empty s then None else Some s
  | None => None
  end.

Definition message_content (m : Message) : string :=
  match truthy (htmlContent m) with
  | Some s => s
  | None => default "" (truthy (textContent m))
  end.

(** The [for (const msg of messages)] loop of [verifyEmail]. *)
Fixpoint scan_messages (details : string -> option Message) (messages : list Message)
  : option string :=
  match messages with
  | [] => None
  | msg :: rest =>
      if JsString.includes (fromAddress msg) "replit" then
        match details (msg_id msg) with
        | None => scan_messages details rest
        | Some d =>
            match Link.find (message_content d) with
            | Some link => Some link
            | None => scan_messages details rest
            end
        end
      else scan_messages details rest
  end.

(** ** The methods of [AccountAutomationService] *)

Definition nl : string := String (ascii_of_nat 10) EmptyString.

(** [error.message || error.toString()] for an [Error]. *)
Definition error_text (message : string) : string :=
  if JsString.is_empty message then "Error" else message.

Definition captchaPatterns : list (list string) :=
  [ ["captcha token is invalid"]; ["captcha"; "expired"]; ["captcha"] ].

Definition otherErrorPatterns : list (list string * string) :=
  [ (["doing it too much"], "Trop de tentatives (rate limit)");
    (["try again"], "Réessayer demandé");
    (["email"; "already"; "taken"], "Email déjà utilisé");
    (["email"; "exists"], "Email déjà existant");
    (["invalid"; "email"], "Email invalide");
    (["password"; "short"], "Mot de passe trop court") ].

(** The [for] loop over [captchaPatterns] with its [break]. *)
Definition captcha_detected (content : string) : bool :=
  existsb (fun p => JsString.test_ci p content) captchaPatterns.

(** [!url.includes('/signup') && url.includes('replit.com')] *)
Definition left_signup (url : string) : bool :=
  negb (JsString.includes url "/signup") && JsString.includes url "replit.com".

Definition viewports : list (Z * Z) :=
  [ (1920, 1080); (1366, 768); (1536, 864); (1440, 900); (1600, 900) ].

(** The viewport of [getRandomFingerprint()]; the profile drawn with it only
    configures the browser. *)
Definition fingerprint_viewport (sc : Scenario) : Z * Z :=
  nth (Z.to_nat (random_int (viewport_draw sc) (Z.of_nat (length viewports))))
      viewports (0, 0).

Definition cookie_row (account_id : string) (c : Cookie) : CookieRow :=
  {| row_account_id := account_id;
     row_name := cookie_name c;
     row_value := cookie_value c;
     row_domain := cookie_domain c;
     row_path := cookie_path c;
     row_expires := if cookie_expires c =? 0 then None else Some (cookie_expires c);
     row_http_only := cookie_httpOnly c;
     row_secure := cookie_secure c;
     row_same_site := truthy (cookie_sameSite c) |}.

(** The whitelist of the [debugLogs] filter of the retry reset. *)
Definition kept_debug_line (log : string) : bool :=
  JsString.includes log "🚀 Démarrage" ||
  JsString.includes log "📧 Email:" ||
  JsString.includes log "⏳ Initialisation" ||
  JsString.includes log "▶️ Démarrage" ||
  JsString.includes log "🔄 Tentative" ||
  JsString.includes log "⏳ Pause".

Definition reset_failed_step (s : Step.t) : Step.t :=
  match Step.status s with
  | failed => Step.with_status pending s
  | _ => s
  end.

Definition initial_steps : list Step.t :=
  [ Step.mk "load" "Chargement de la page" pending;
    Step.mk "form" "Saisie email et mot de passe" pending;
    Step.mk "submit" "Création du compte" pending;
    Step.mk "redirect" "Redirection réussie" pending;
    Step.mk "email_verify" "Validation de l'email" pending ].

Definition new_task (taskId email : string) (now : Z) : Task.t :=
  Task.mk taskId replit email (Some email) pending initial_steps [] [] [] []
          now None.

Section Methods.

Variable svc : Service.

Definition notifyUpdate (taskId : string) : M unit :=
  modify (fun w => record (notifications taskId w) w).

Definition addLog (taskId log : string) : M unit :=
  modify (on_task taskId (push_log log));;
  notifyUpdate taskId.

Definition addDebugLog (taskId log : string) : M unit :=
  if debugMode svc then modify (on_task taskId (push_debugLog log))
  else ret tt.

Definition updateStep (taskId stepId : string) (status : Status)
    (log : option string) : M unit :=
  modify (on_task taskId
            (fun t => Task.with_steps (set_step stepId status (Task.steps t)) t));;
  match truthy log with
  | Some l => modify (on_task taskId (push_log l))
  | None => ret tt
  end.


(** [if (page) await page.close().catch(() => {})], then the same for the
    context and the browser. *)
Definition close_all : M unit :=
  modify (fun w =>
    record (closed_events (browser w) (context w) (page w))
      (with_handles (close_quietly (browser w)) (close_quietly (context w))
                    (close_quietly (page w)) w)).

Section Attempt.

Variable sc : Scenario.

Definition saveCookies (taskId : string) : M unit :=
  try_catch
    (cookies <- await (contextCookies sc);;
     await (writeCookieFile sc);;
     modify (fun w => record [EvSaveCookies taskId cookies]
                        (with_cookieFiles (<[taskId := cookies]>) w)))
    (fun _ => ret tt).

Definition loadCookies (taskId : string) : M bool :=
  try_catch
    (file <- gets (fun w => cookieFiles w !! taskId);;
     modify (record [EvLoadCookies taskId (bool_decide (is_Some file))]);;
     match file with
     | Some _ => await (addCookies sc);; ret true
     | None => ret false
     end)
    (fun _ => ret false).

Definition solveCaptcha (taskId : string) : M (option string) :=
  match captchaSolver svc with
  | None =>
      addDebugLog taskId "⚠️  2Captcha non configuré - définir CAPTCHA_API_KEY";;
      ret None
  | Some _ =>
      try_catch
        (addDebugLog taskId "🔍 Recherche du sitekey reCAPTCHA...";;
         key <- await (sitekey sc);;
         match truthy key with
         | None =>
             addDebugLog taskId "❌ Sitekey reCAPTCHA introuvable";;
             ret None
         | Some k =>
             addDebugLog taskId
               ("🔑 Sitekey trouvé: " +:+ String.substring 0 20 k +:+ "...");;
             addDebugLog taskId "🤖 Résolution du reCAPTCHA avec 2Captcha...";;
             data <- await (recaptcha sc);;
             addDebugLog taskId "✅ reCAPTCHA résolu avec succès!";;
             ret (Some data)
         end)
        (fun e =>
           addDebugLog taskId ("❌ Erreur 2Captcha: " +:+ e);;
           ret None)
  end.

Definition injectCaptchaSolution (taskId : string) : M unit :=
  try_catch
    (addDebugLog taskId "💉 Injection du token reCAPTCHA...";;
     await (injectToken sc);;
     addDebugLog taskId "✅ Token reCAPTCHA injecté")
    (fun e => addDebugLog taskId ("❌ Erreur injection: " +:+ e)).

Definition saveAccountToDatabase (taskId : string) (cookies : list Cookie)
    (verified : bool) : M unit :=
  try_catch
    (addDebugLog taskId "💾 Sauvegarde en base de données...";;
     email <- gets (task_email taskId);;
     password <- gets (task_password taskId);;
     let row := {| row_email := email; row_password := password;
                   row_verified := verified;
                   row_verified_at :=
                     if verified then Some (verified_at sc) else None |} in
     modify (record [EvSaveAccount row]);;
     reply <- await (insertAccount sc);;
     match reply with
     | Refused message => throw ("DB Error: " +:+ message)
     | Inserted account_id =>
         modify (fun w => with_database (replit_accounts w ++ [row])
                                        (cookies_table w) w);;
         match cookies with
         | [] => ret tt
         | _ :: _ =>
             let rows := map (cookie_row account_id) cookies in
             modify (record [EvSaveCookieRows rows]);;
             cookiesError <- await (insertCookies sc);;
             if cookiesError : bool then ret tt
             else
               modify (fun w => with_database (replit_accounts w)
                                              (cookies_table w ++ rows) w);;
               addDebugLog taskId
                 ("✅ " +:+ pretty (length cookies) +:+ " cookies sauvegardés")
         end;;
         addDebugLog taskId "✅ Compte sauvegardé en base de données"
     end)
    (fun e => addLog taskId ("⚠️ Erreur DB: " +:+ e)).

Definition maxAttempts : nat := 10.

(** The [while (!verificationLink && attempts < maxAttempts)] loop;
    [budget] is [maxAttempts - attempts]. *)
Fixpoint poll (taskId : string) (budget attempts : nat) : M (option string) :=
  match budget with
  | O => ret None
  | S budget' =>
      match scan_messages (messageDetails sc) (mailbox sc attempts) with
      | Some link => ret (Some link)
      | None =>
          addDebugLog taskId
            ("⏳ Attente email... (" +:+ pretty (S attempts) +:+ "/" +:+
             pretty maxAttempts +:+ ")");;
          sleep 3000;;
          poll taskId budget' (S attempts)
      end
  end.

Definition close_in_verify (r : Resource) (o : Outcome unit) : M unit :=
  await o;;
  modify (fun w =>
    record [EvClose r]
      match r with
      | TheContext => with_handles (browser w) Closed (page w) w
      | TheBrowser => with_handles Closed (context w) (page w) w
      | ThePage => with_handles (browser w) (context w) Closed w
      end).

Definition verifyEmail (taskId : string) (cookies : list Cookie) : M unit :=
  try_catch
    (updateStep taskId "email_verify" running None;;
     addDebugLog taskId "📧 Récupération de l'email de confirmation...";;
     sleep 5000;;
     verificationLink <- poll taskId maxAttempts 0;;
     match verificationLink with
     | None =>
         updateStep taskId "email_verify" failed None;;
         addLog taskId "❌ Email de confirmation non reçu";;
         saveAccountToDatabase taskId cookies false;;
         close_in_verify TheContext (closeContext sc);;
         close_in_verify TheBrowser (closeBrowser sc)
     | Some _ =>
         addDebugLog taskId "🔗 Lien trouvé, validation en cours...";;
         await (goto_verify sc);;
         sleep 3000;;
         updateStep taskId "email_verify" completed None;;
         addDebugLog taskId "✅ Email validé avec succès!";;
         final <- await (finalCookies sc);;
         saveAccountToDatabase taskId final true;;
         close_in_verify TheContext (closeContext sc);;
         close_in_verify TheBrowser (closeBrowser sc)
     end)
    (fun e =>
       updateStep taskId "email_verify" failed None;;
       addLog taskId ("❌ Erreur validation: " +:+ e);;
       saveAccountToDatabase taskId cookies false;;
       close_in_verify TheContext (closeContextCatch sc);;
       close_in_verify TheBrowser (closeBrowserCatch sc)).

End Attempt.

End Methods.

Section Signup.

Variable svc : Service.
Variable sc : Scenario.

(** The loop over [otherErrorPatterns]; the result is [otherErrorDetected]. *)
Fixpoint report_other_errors (taskId content : string)
    (patterns : list (list string * string)) (detected : bool) : M bool :=
  match patterns with
  | [] => ret detected
  | (pattern, message) :: rest =>
      if JsString.test_ci pattern content then
        modify (on_task taskId (push_errorMessage message));;
        updateStep taskId "submit" failed None;;
        addLog taskId ("❌ " +:+ message);;
        report_other_errors taskId content rest true
      else report_other_errors taskId content rest detected
  end.

(** The loop over the alert elements of the page that stayed on signup. *)
Fixpoint report_alerts (taskId : string) (texts : list (option string)) : M unit :=
  match texts with
  | [] => ret tt
  | text :: rest =>
      match truthy (JsString.trim <$> truthy text) with
      | Some trimmed =>
          addLog taskId ("🚨 " +:+ trimmed);;
          modify (on_task taskId (push_errorMessage trimmed));;
          report_alerts taskId rest
      | None => report_alerts taskId rest
      end
  end.

Definition screenshot_url (png : string) : string :=
  "data:image/png;base64," +:+ png.

(** The submission after the captcha token was injected.  The result says
    whether the attempt has returned [true] from inside this block. *)
Definition resubmit (taskId : string) : M bool :=
  injectCaptchaSolution svc sc taskId;;
  found <- await (retryButton sc);;
  if found : bool then
    await (retryClick sc);;
    addDebugLog svc taskId "🔄 Nouvelle soumission avec token 2Captcha...";;
    await (retryWait sc);;
    if left_signup (newUrl sc) then
      updateStep taskId "submit" completed None;;
      addDebugLog svc taskId "✅ Succès avec 2Captcha!";;
      updateStep taskId "redirect" completed None;;
      cookies <- await (contextCookies sc);;
      saveCookies sc taskId;;
      verifyEmail svc sc taskId cookies;;
      ret true
    else ret false
  else ret false.

(** The classification of the page after the submission. *)
Definition classify (taskId content : string) : M bool :=
  let captchaDetected := captcha_detected content in
  match captchaDetected, captchaSolver svc with
  | true, Some _ =>
      addLog taskId "🤖 reCAPTCHA détecté - tentative de résolution automatique...";;
      token <- solveCaptcha svc sc taskId;;
      returned <- match truthy token with
                  | Some _ => resubmit taskId
                  | None => ret false
                  end;;
      if returned : bool then ret true
      else
        addLog taskId "❌ Échec résolution CAPTCHA - retry nécessaire";;
        addDebugLog svc taskId "⚠️ Fermeture du contexte empoisonné...";;
        close_all;;
        ret false
  | true, None =>
      addLog taskId "❌ reCAPTCHA détecté - Configurez CAPTCHA_API_KEY pour résolution auto";;
      addDebugLog svc taskId "⚠️ Fermeture du contexte empoisonné...";;
      close_all;;
      ret false
  | false, _ =>
      otherErrorDetected <- report_other_errors taskId content otherErrorPatterns false;;
      if otherErrorDetected : bool then
        addDebugLog svc taskId "⚠️ Fermeture du contexte empoisonné avant retry...";;
        close_all;;
        ret false
      else if left_signup (currentUrl sc) then
        updateStep taskId "submit" completed None;;
        addDebugLog svc taskId "✅ Soumission réussie";;
        updateStep taskId "redirect" completed None;;
        addDebugLog svc taskId ("✅ Redirigé vers: " +:+ currentUrl sc);;
        cookies <- await (contextCookies sc);;
        verifyEmail svc sc taskId cookies;;
        ret true
      else
        addDebugLog svc taskId "⚠️ Toujours sur la page signup - détection probable";;
        texts <- await (errorElements sc);;
        report_alerts taskId texts;;
        updateStep taskId "submit" failed None;;
        addDebugLog svc taskId "⚠️ Nettoyage du contexte empoisonné...";;
        close_all;;
        ret false
  end.

(** The [try] block of [attemptSignup] up to the submission of the form;
    the result is [pageContent]. *)
Definition submit_form (taskId : string) (attemptNumber : nat) : M string :=
  (if (1 <? attemptNumber)%nat then
     addDebugLog svc taskId
       ("🔄 Tentative " +:+ pretty attemptNumber +:+ "/" +:+ pretty MAX_RETRIES +:+
        " avec nouveau contexte propre");;
     sleep (random_int (fresh_context_draw sc) 5000 + 5000)
   else ret tt);;
  let viewport := fingerprint_viewport sc in
  updateStep taskId "load" running
    (Some ("🎭 Browser: " +:+ pretty (fst viewport) +:+ "x" +:+ pretty (snd viewport) +:+
           " (Tentative " +:+ pretty attemptNumber +:+ ")"));;
  addDebugLog svc taskId "🌐 Configuration navigateur avec anti-détection 2025...";;
  await (launch sc);;
  modify (fun w => with_handles Open (context w) (page w) w);;
  addDebugLog svc taskId "🍪 Création du contexte avec cookies persistants...";;
  await (newContext sc);;
  modify (fun w => with_handles (browser w) Open (page w) w);;
  loadCookies sc taskId;;
  await (newPage sc);;
  modify (fun w => with_handles (browser w) (context w) Open w);;
  updateStep taskId "load" running (Some "🌐 Navigation vers replit.com/signup...");;
  await (goto_signup sc);;
  let initialDelay :=
    if debugMode svc then random_int (initial_delay_draw sc) 500 + 500
    else random_int (initial_delay_draw sc) 3000 + 5000 in
  addDebugLog svc taskId
    ("⏳ Attente initiale: " +:+ pretty initialDelay +:+
     "ms (simulation comportement humain)");;
  await (humanize sc);;
  screenshot <- await (screenshot1 sc);;
  modify (on_task taskId (push_screenshot (screenshot_url screenshot)));;
  updateStep taskId "load" completed None;;
  addDebugLog svc taskId "✅ Page chargée";;
  updateStep taskId "form" running None;;
  button <- await (emailPasswordButton sc);;
  (if button : bool then
     await (emailPasswordClick sc);;
     addDebugLog svc taskId "✅ Bouton Email & Password cliqué"
   else ret tt);;
  input <- await (emailInput sc);;
  (if input : bool then ret tt else throw "Champ email introuvable");;
  await (typeEmail sc);;
  email <- gets (task_email taskId);;
  addDebugLog svc taskId ("📝 Email saisi:" +:+ nl +:+ "   " +:+ email);;
  input <- await (passwordInput sc);;
  (if input : bool then ret tt else throw "Champ password introuvable");;
  await (typePassword sc);;
  updateStep taskId "form" completed None;;
  password <- gets (task_password taskId);;
  addDebugLog svc taskId
    ("🔒 Mot de passe saisi:" +:+ nl +:+ "   " +:+ default "undefined" password);;
  await (beforeSubmit sc);;
  updateStep taskId "submit" running None;;
  button <- await (createButton sc);;
  (if button : bool then ret tt
   else
     screenshot <- await (screenshotMissing sc);;
     modify (on_task taskId (push_screenshot (screenshot_url screenshot)));;
     throw "Bouton Create Account introuvable");;
  await (clickCreate sc);;
  addDebugLog svc taskId "🖱️ Bouton Create Account cliqué - Analyse en cours...";;
  let waitTime :=
    if debugMode svc then 2000
    else random_int (wait_time_draw sc) 3000 + 8000 in
  addDebugLog svc taskId ("⏳ Attente réponse serveur: " +:+ pretty waitTime +:+ "ms");;
  screenshot <- await (screenshot2 sc);;
  modify (on_task taskId (push_screenshot (screenshot_url screenshot)));;
  await (pageContent sc).

(** The body of the [try] block of [attemptSignup]. *)
Definition signup (taskId : string) (attemptNumber : nat) : M bool :=
  content <- submit_form taskId attemptNumber;;
  classify taskId content.

Definition attemptSignup (taskId : string) (attemptNumber : nat) : M bool :=
  modify (with_handles Null Null Null);;
  try_catch (signup taskId attemptNumber)
    (fun e =>
       let errorMessage := error_text e in
       modify (on_task taskId (push_errorMessage errorMessage));;
       updateStep taskId "submit" failed None;;
       addLog taskId ("❌ " +:+ errorMessage);;
       addDebugLog svc taskId "⚠️ Erreur - nettoyage complet du navigateur...";;
       close_all;;
       ret false).

End Signup.

(** ** The retry controller and the public entry point *)

Section RetryController.

Variable svc : Service.
Variable env : Env.

(** [this.attemptSignup], as the retry loop calls it. *)
Variable attempt : string -> nat -> M bool.

(** The reset that precedes every attempt but the first. *)
Definition reset_for_retry (taskId : string) (attemptNo : nat) : M unit :=
  addDebugLog svc taskId
    (nl +:+ "🔄 Tentative " +:+ pretty attemptNo +:+ "/" +:+ pretty MAX_RETRIES);;
  modify (on_task taskId
            (fun t => Task.with_steps (map reset_failed_step (Task.steps t)) t));;
  let delay := random_int (backoff_draw env attemptNo) 8000 + 5000 in
  addDebugLog svc taskId ("⏳ Pause de " +:+ pretty (delay / 1000) +:+ "s...");;
  notifyUpdate taskId;;
  sleep delay;;
  modify (on_task taskId (Task.with_errorMessages []));;
  modify (on_task taskId (Task.with_screenshots []));;
  modify (on_task taskId
            (fun t => Task.with_debugLogs (filter kept_debug_line (Task.debugLogs t)) t)).

(** [for (let attempt = 1; attempt <= MAX_RETRIES; attempt++)] and the code
    after the loop; [remaining] is [MAX_RETRIES - attempt + 1]. *)
Fixpoint retry_loop (taskId : string) (remaining attemptNo : nat) : M unit :=
  match remaining with
  | O =>
      modify (set_status taskId failed);;
      modify (on_task taskId (Task.with_completedAt (Some (completed_now env))));;
      addDebugLog svc taskId
        ("❌ Échec définitif après " +:+ pretty MAX_RETRIES +:+ " tentatives");;
      notifyUpdate taskId
  | S remaining' =>
      (if (1 <? attemptNo)%nat then reset_for_retry taskId attemptNo else ret tt);;
      modify (record [EvAttempt taskId attemptNo]);;
      success <- attempt taskId attemptNo;;
      if success : bool then
        modify (set_status taskId completed);;
        modify (on_task taskId (Task.with_completedAt (Some (completed_now env))));;
        notifyUpdate taskId;;
        modify (record [EvInterval taskId false])
      else retry_loop taskId remaining' (S attemptNo)
  end.

Definition runAutomationWith (taskId : string) : M unit :=
  task <- gets (fun w => tasks w !! taskId);;
  match task with
  | None => ret tt
  | Some _ =>
      modify (set_status taskId running);;
      notifyUpdate taskId;;
      addDebugLog svc taskId "▶️ Démarrage de l'automatisation...";;
      modify (record [EvInterval taskId true]);;
      try_finally (retry_loop taskId MAX_RETRIES 1)
                  (record [EvInterval taskId false])
  end.

(** The handler of [this.runAutomation(taskId).catch(...)]. *)
Definition fatal_error (taskId message : string) : M unit :=
  modify (set_status taskId failed);;
  modify (on_task taskId (push_errorMessage ("Erreur fatale: " +:+ message)));;
  modify (on_task taskId (Task.with_completedAt (Some (completed_now env))));;
  notifyUpdate taskId.

(** The task runs to its end before the result is looked at: the model
    does not interleave the caller with the automation it started. *)
Definition createReplitAccountWith (email : string) : M string :=
  let taskId := nanoid env in
  modify (with_tasks (<[taskId := new_task taskId email (created_now env)]>));;
  addDebugLog svc taskId "🚀 Démarrage de l'automatisation Replit";;
  addDebugLog svc taskId ("📧 Email: " +:+ email);;
  addDebugLog svc taskId "⏳ Initialisation...";;
  try_catch (runAutomationWith taskId) (fatal_error taskId);;
  ret taskId.

End RetryController.

Definition runAutomation (svc : Service) (env : Env) : string -> M unit :=
  runAutomationWith svc env (fun taskId n => attemptSignup svc (scenario env n) taskId n).

Definition createReplitAccount (svc : Service) (env : Env) : string -> M string :=
  createReplitAccountWith svc env
    (fun taskId n => attemptSignup svc (scenario env n) taskId n).

Definition getTask (taskId : string) : M (option Task.t) :=
  gets (fun w => tasks w !! taskId).

(** ** The worker pool and the two ways a task is started *)

Module WorkerPool.

Record t := {
  maxWorkers : Z;
  activeWorkers : Z;
  queue : list nat
}.

Definition new (maxWorkers : Z) : t :=
  {| maxWorkers := maxWorkers; activeWorkers := 0; queue := [] |}.

(** [processQueue()]: nothing ever enters [queue], the entry taken from it
    would be called without a permit. *)
Definition processQueue (p : t) : t :=
  match queue p with
  | _ :: rest =>
      if activeWorkers p <? maxWorkers p
      then {| maxWorkers := maxWorkers p; activeWorkers := activeWorkers p;
              queue := rest |}
      else p
  | [] => p
  end.

(** One evaluation of the condition of the [while] loop of [execute]: the
    caller either goes to sleep for a second or takes a permit; no other
    code runs between the test and the increment. *)
Definition poll (p : t) : option t :=
  if maxWorkers p <=? activeWorkers p then None
  else Some {| maxWorkers := maxWorkers p;
               activeWorkers := activeWorkers p + 1; queue := queue p |}.

(** The [finally] block of [execute]. *)
Definition release (p : t) : t :=
  processQueue {| maxWorkers := maxWorkers p;
                  activeWorkers := activeWorkers p - 1; queue := queue p |}.


End WorkerPool.

(** The automations in flight.  [createReplitAccount] starts
    [runAutomation] at once; [createMultipleAccounts] wraps the creation of
    each task, and the wait for its terminal status, in
    [workerPool.execute]. *)
Inductive Phase := Polling | Running | Returned.

Inductive Job :=
| Direct (live : bool)
| Pooled (phase : Phase).

Record Fleet := {
  workerPool : WorkerPool.t;
  jobs : list Job
}.

Inductive Action :=
| CreateReplitAccount          (* a direct call of the public method *)
| DirectEnds (i : nat)         (* its task reaches a terminal status *)
| Execute                      (* a call of [workerPool.execute] *)
| Poll (i : nat)               (* the call tests the loop condition *)
| Finish (i : nat).            (* the wrapped task ended, the permit goes back *)


Definition holds_permit (j : Job) : bool :=
  match j with
  | Pooled Running => true
  | _ => false
  end.

Definition act (a : Action) (s : Fleet) : option Fleet :=
  match a with
  | CreateReplitAccount =>
      Some {| workerPool := workerPool s; jobs := jobs s ++ [Direct true] |}
  | DirectEnds i =>
      match jobs s !! i with
      | Some (Direct true) =>
          Some {| workerPool := workerPool s; jobs := <[i := Direct false]> (jobs s) |}
      | _ => None
      end
  | Execute =>
      Some {| workerPool := workerPool s; jobs := jobs s ++ [Pooled Polling] |}
  | Poll i =>
      match jobs s !! i with
      | Some (Pooled Polling) =>
          match WorkerPool.poll (workerPool s) with
          | Some p => Some {| workerPool := p; jobs := <[i := Pooled Running]> (jobs s) |}
          | None => Some s
          end
      | _ => None
      end
  | Finish i =>
      match jobs s !! i with
      | Some (Pooled Running) =>
          Some {| workerPool := WorkerPool.release (workerPool s);
                  jobs := <[i := Pooled Returned]> (jobs s) |}
      | _ => None
      end
  end.

Fixpoint run (actions : list Action) (s : Fleet) : option Fleet :=
  match actions with
  | [] => Some s
  | a :: rest =>
      match act a s with
      | Some s' => run rest s'
      | None => None
      end
  end.

(** The service as its constructor leaves it. *)
Definition fleet0 : Fleet :=
  {| workerPool := WorkerPool.new (Z.of_nat MAX_WORKERS); jobs := [] |}.

Definition count_jobs (f : Job -> bool) (s : Fleet) : nat :=
  length (filter (fun j => f j = true) (jobs s)).


(** The counter of the pool counts the calls of [execute] that hold a
    permit, and stays within the bounds. *)
Definition permits_counted (s : Fleet) : Prop :=
  WorkerPool.activeWorkers (workerPool s) = Z.of_nat (count_jobs holds_permit s) /\
  WorkerPool.maxWorkers (workerPool s) = Z.of_nat MAX_WORKERS /\
  WorkerPool.queue (workerPool s) = [] /\
  (count_jobs holds_permit s <= MAX_WORKERS)%nat.

(** ** Reasoning about service code *)

(** [m] moves the world along [R]. *)
Definition steady (R : World -> World -> Prop) {A} (m : M A) : Prop :=
  forall w, R w (snd (m w)).

(** [m] returns normally from every world. *)
Definition safe {A} (m : M A) : Prop :=
  forall w, exists a, fst (m w) = Ok a.

(** [m] started from a world of [P] ends in [Q]. *)
Definition hoare {A} (P : World -> Prop) (m : M A) (Q : Res A -> World -> Prop) : Prop :=
  forall w, P w -> Q (fst (m w)) (snd (m w)).

(** Everything of a task that an attempt leaves alone. *)
Definition step_names (l : list Step.t) : list (string * string) :=
  map (fun s => (Step.id s, Step.label s)) l.

Definition task_inert (f : Task.t -> Task.t) : Prop :=
  forall t,
    Task.id (f t) = Task.id t /\ Task.provider (f t) = Task.provider t /\
    Task.email (f t) = Task.email t /\ Task.password (f t) = Task.password t /\
    Task.status (f t) = Task.status t /\ Task.createdAt (f t) = Task.createdAt t /\
    Task.completedAt (f t) = Task.completedAt t /\
    step_names (Task.steps (f t)) = step_names (Task.steps t).

(** Events that only the retry controller records. *)
Definition controller_event (e : Event) : bool :=
  match e with
  | EvStatus _ _ | EvAttempt _ _ => true
  | _ => false
  end.

(** The moves of the world an attempt is made of. *)
Inductive attempt_step : World -> World -> Prop :=
| as_task taskId f w :
    task_inert f -> attempt_step w (on_task taskId f w)
| as_record evs w :
    forallb (fun e => negb (controller_event e)) evs = true ->
    attempt_step w (record evs w)
| as_handles b c p w : attempt_step w (with_handles b c p w)
| as_cookieFiles f w : attempt_step w (with_cookieFiles f w)
| as_database a c w : attempt_step w (with_database a c w).

Definition attempt_moves : World -> World -> Prop := rtc attempt_step.

(** The status writes, the attempts and the gateway calls of a trace. *)
Definition status_writes (taskId : string) (tr : list Event) : list Status :=
  omap (fun e => match e with
                 | EvStatus i s => if String.eqb i taskId then Some s else None
                 | _ => None
                 end) tr.

Definition attempts_made (taskId : string) (tr : list Event) : list nat :=
  omap (fun e => match e with
                 | EvAttempt i n => if String.eqb i taskId then Some n else None
                 | _ => None
                 end) tr.

Definition accounts_saved (tr : list Event) : list AccountRow :=
  omap (fun e => match e with EvSaveAccount row => Some row | _ => None end) tr.

Definition cookie_rows_saved (tr : list Event) : list (list CookieRow) :=
  omap (fun e => match e with EvSaveCookieRows rows => Some rows | _ => None end) tr.

Definition sleeps (tr : list Event) : list Z :=
  omap (fun e => match e with EvSleep ms => Some ms | _ => None end) tr.


Definition cookie_saves (taskId : string) (tr : list Event) : list (list Cookie) :=
  omap (fun e => match e with
                 | EvSaveCookies i cs => if String.eqb i taskId then Some cs else None
                 | _ => None
                 end) tr.

Definition cookie_loads (taskId : string) (tr : list Event) : list bool :=
  omap (fun e => match e with
                 | EvLoadCookies i b => if String.eqb i taskId then Some b else None
                 | _ => None
                 end) tr.

(** The part of a task that an attempt leaves alone, as one value. *)
Definition static (t : Task.t)
  : string * Provider * string * option string * Status * Z * option Z *
    list (string * string) :=
  (Task.id t, Task.provider t, Task.email t, Task.password t, Task.status t,
   Task.createdAt t, Task.completedAt t, step_names (Task.steps t)).

Definition task_completedAt (taskId : string) (w : World) : option Z :=
  tasks w !! taskId ≫= Task.completedAt.

(** What never changes in a task once it is created. *)
Definition identity (t : Task.t)
  : string * Provider * string * option string * Z * list (string * string) :=
  (Task.id t, Task.provider t, Task.email t, Task.password t,
   Task.createdAt t, step_names (Task.steps t)).

Definition keeps_identity (taskId : string) (w w' : World) : Prop :=
  identity <$> tasks w' !! taskId = identity <$> tasks w !! taskId.

(** The two lines the retry reset adds to [debugLogs] in debug mode. *)
Definition retry_debug_lines (svc : Service) (env : Env) (n : nat) : list string :=
  if debugMode svc then
    [ nl +:+ "🔄 Tentative " +:+ pretty n +:+ "/" +:+ pretty MAX_RETRIES;
      "⏳ Pause de " +:+
        pretty ((random_int (backoff_draw env n) 8000 + 5000) / 1000) +:+ "s..." ]
  else [].

(** ** Scenarios to run the service on *)

Module Example.

Definition no_solver : Service := {| debugMode := false; captchaSolver := None |}.
Definition debugging : Service := {| debugMode := true; captchaSolver := None |}.

Definition session_cookie : Cookie :=
  {| cookie_name := "connect.sid"; cookie_value := "s%3Aabc";
     cookie_domain := "replit.com"; cookie_path := "/";
     cookie_expires := 1800000000; cookie_httpOnly := true;
     cookie_secure := true; cookie_sameSite := Some "Lax" |}.

(** The cookie the provider adds when the address is verified. *)
Definition verified_cookie : Cookie :=
  {| cookie_name := "replit_authed"; cookie_value := "1";
     cookie_domain := "replit.com"; cookie_path := "/";
     cookie_expires := -1; cookie_httpOnly := false;
     cookie_secure := true; cookie_sameSite := None |}.

(** A browser in which every call resolves and every element is found;
    the launch, the first [context.close()] of the verification, the page
    after the submission and the mailbox vary. *)
Definition session (started closed : Outcome unit) (content url : string)
    (mail : nat -> list Message) (details : string -> option Message) : Scenario :=
  {| fresh_context_draw := 0; viewport_draw := 0;
     launch := started; newContext := Resolves tt; addCookies := Resolves tt;
     newPage := Resolves tt; goto_signup := Resolves tt; initial_delay_draw := 0;
     humanize := Resolves tt; screenshot1 := Resolves "AAAA";
     emailPasswordButton := Resolves true; emailPasswordClick := Resolves tt;
     emailInput := Resolves true; typeEmail := Resolves tt;
     passwordInput := Resolves true; typePassword := Resolves tt;
     beforeSubmit := Resolves tt; createButton := Resolves true;
     screenshotMissing := Resolves "CCCC"; clickCreate := Resolves tt;
     wait_time_draw := 0; screenshot2 := Resolves "BBBB";
     pageContent := Resolves content; currentUrl := url;
     sitekey := Resolves (Some "6Lc-site-key"); recaptcha := Resolves "token";
     injectToken := Resolves tt; retryButton := Resolves true;
     retryClick := Resolves tt; retryWait := Resolves tt;
     newUrl := "https://replit.com/~";
     contextCookies := Resolves [session_cookie]; writeCookieFile := Resolves tt;
     errorElements := Resolves [];
     mailbox := mail; messageDetails := details;
     goto_verify := Resolves tt;
     finalCookies := Resolves [session_cookie; verified_cookie];
     closeContext := closed; closeBrowser := Resolves tt;
     closeContextCatch := Resolves tt; closeBrowserCatch := Resolves tt;
     insertAccount := Resolves (Inserted "account-1");
     insertCookies := Resolves false;
     verified_at := 1700000000 |}.

Definition browsing (started : Outcome unit) : string -> string ->
    (nat -> list Message) -> (string -> option Message) -> Scenario :=
  session started (Resolves tt).

Definition verification_mail : Message :=
  {| msg_id := "m1"; fromAddress := "no-reply@replit.com";
     htmlContent := Some "<a href=https://replit.com/verify?token=abc>Verify</a>";
     textContent := None |}.

(** The signup redirects and the verification mail is there. *)
Definition welcome : Scenario :=
  browsing (Resolves tt) "<html>Welcome</html>" "https://replit.com/~"
           (fun _ => [verification_mail]) (fun _ => Some verification_mail).

(** The signup redirects and no mail ever arrives. *)
Definition silent : Scenario :=
  browsing (Resolves tt) "<html>Welcome</html>" "https://replit.com/~"
           (fun _ => []) (fun _ => None).

(** The provider answers that the address is taken. *)
Definition email_taken : Scenario :=
  browsing (Resolves tt) "<p>Email is already taken</p>" "https://replit.com/signup"
           (fun _ => []) (fun _ => None).

(** The provider answers with a captcha. *)
Definition captcha_wall : Scenario :=
  browsing (Resolves tt) "<div>Please complete the CAPTCHA</div>"
           "https://replit.com/signup" (fun _ => []) (fun _ => None).

(** The same, and the context does not close after the account is saved. *)
Definition close_fails : Scenario :=
  session (Resolves tt) (Rejects "browserContext.close: Target closed")
          "<html>Welcome</html>" "https://replit.com/~"
          (fun _ => [verification_mail]) (fun _ => Some verification_mail).


(** The browser does not start. *)
Definition crash : Scenario :=
  browsing (Rejects "browserType.launch: Executable doesn't exist")
           "" "" (fun _ => []) (fun _ => None).

Definition env_of (sc : nat -> Scenario) : Env :=
  {| nanoid := "task-1"; created_now := 1000; completed_now := 2000;
     backoff_draw := fun _ => 0; scenario := sc |}.

(** The map with one task just created. *)
Definition created : World :=
  with_tasks (<["task-1" := new_task "task-1" "user@antdev.org" 1000]>) empty_world.


End Example.

(** ** Notifications after status changes *)

(** [tr] begins with one call of every callback of [cbs], in order, each
    seeing the task with status [s]. *)
Fixpoint starts_with_round (taskId : string) (cbs : list Callback) (s : Status)
    (tr : list Event) : bool :=
  match cbs with
  | [] => true
  | cb :: cbs' =>
      match tr with
      | EvNotify i cb' t :: tr' =>
          String.eqb i taskId && Nat.eqb cb' cb &&
          bool_decide (Task.status t = s) && starts_with_round taskId cbs' s tr'
      | _ => false
      end
  end.

(** Every assignment of the task's status in [tr] is followed at once by
    such a round. *)
Fixpoint status_changes_notified (taskId : string) (cbs : list Callback)
    (tr : list Event) : bool :=
  match tr with
  | [] => true
  | EvStatus i s :: tr' =>
      (if String.eqb i taskId then starts_with_round taskId cbs s tr' else true) &&
      status_changes_notified taskId cbs tr'
  | _ :: tr' => status_changes_notified taskId cbs tr'
  end.

(** The invariant of the runs of the service on a task with the callbacks
    [cbs], as a relation between the worlds before and after. *)
Definition notifying (taskId : string) (cbs : list Callback) (w w' : World) : Prop :=
  is_Some (tasks w !! taskId) /\
  default [] (updateCallbacks w !! taskId) = cbs /\
  status_changes_notified taskId cbs (trace w) = true ->
  is_Some (tasks w' !! taskId) /\
  default [] (updateCallbacks w' !! taskId) = cbs /\
  status_changes_notified taskId cbs (trace w') = true.

(** Events that say something to a subscriber or let time pass. *)
Definition plain_event (e : Event) : bool :=
  match e with
  | EvNotify _ _ _ | EvSleep _ => true
  | _ => false
  end.

(** The moves of the world that logging, step updates and waiting are made
    of: nothing but the task and the trace changes. *)
Inductive log_step : World -> World -> Prop :=
| ls_task taskId f w :
    task_inert f -> log_step w (on_task taskId f w)
| ls_record evs w :
    forallb plain_event evs = true -> log_step w (record evs w).

Definition logging : World -> World -> Prop := rtc log_step.

(** The calls of [close()] in a trace. *)
Definition closes (tr : list Event) : list Resource :=
  omap (fun e => match e with EvClose r => Some r | _ => None end) tr.

(** ** The course of an attempt, read off the scenario *)

Definition resolved {A} (o : Outcome A) : option A :=
  match o with Resolves a => Some a | Rejects _ => None end.

Definition found (o : Outcome bool) : option unit :=
  match o with Resolves true => Some tt | _ => None end.

(** The page content the attempt gets to classify, when every call up to
    the submission resolves and every element is found. *)
Definition submission (sc : Scenario) : option string :=
  _ ← resolved (launch sc);
  _ ← resolved (newContext sc);
  _ ← resolved (newPage sc);
  _ ← resolved (goto_signup sc);
  _ ← resolved (humanize sc);
  _ ← resolved (screenshot1 sc);
  button ← resolved (emailPasswordButton sc);
  _ ← (if button : bool then resolved (emailPasswordClick sc) else Some tt);
  _ ← found (emailInput sc);
  _ ← resolved (typeEmail sc);
  _ ← found (passwordInput sc);
  _ ← resolved (typePassword sc);
  _ ← resolved (beforeSubmit sc);
  _ ← found (createButton sc);
  _ ← resolved (clickCreate sc);
  _ ← resolved (screenshot2 sc);
  resolved (pageContent sc).

(** A known soft error is on the page. *)
Definition other_error_detected (content : string) : bool :=
  existsb (fun p => JsString.test_ci (fst p) content) otherErrorPatterns.

(** The link the poller finds within its budget, if any. *)
Fixpoint first_link (sc : Scenario) (budget attempts : nat) : option string :=
  match budget with
  | O => None
  | S budget' =>
      match scan_messages (messageDetails sc) (mailbox sc attempts) with
      | Some link => Some link
      | None => first_link sc budget' (S attempts)
      end
  end.

(** The verification goes through: a link arrives in time, the page opens
    it and the cookies can be read. *)
Definition verification_succeeds (sc : Scenario) : bool :=
  match first_link sc maxAttempts 0, goto_verify sc, finalCookies sc with
  | Some _, Resolves _, Resolves _ => true
  | _, _, _ => false
  end.

(** What [loadCookies] returns. *)
Definition cookies_loaded (sc : Scenario) (taskId : string) (w : World) : bool :=
  match cookieFiles w !! taskId, addCookies sc with
  | Some _, Resolves _ => true
  | _, _ => false
  end.

(** The row [saveAccountToDatabase] sends to the account store. *)
Definition account_row (sc : Scenario) (taskId : string) (w : World)
    (verified : bool) : AccountRow :=
  {| row_email := task_email taskId w;
     row_password := task_password taskId w;
     row_verified := verified;
     row_verified_at := if verified then Some (verified_at sc) else None |}.

(** No traffic with the account store, and the credentials of the task
    are as they were. *)
Definition offline (taskId : string) (w w' : World) : Prop :=
  accounts_saved (trace w') = accounts_saved (trace w) /\
  task_email taskId w' = task_email taskId w /\
  task_password taskId w' = task_password taskId w /\
  cookie_rows_saved (trace w') = cookie_rows_saved (trace w) /\
  cookie_loads taskId (trace w') = cookie_loads taskId (trace w).

(** The gateway calls an attempt makes, given its result: one call, when the
    attempt got to the verification. *)
Definition gateway_calls (sc : Scenario) (taskId : string) (w : World)
    (r : Res bool) : list AccountRow :=
  match r with
  | Ok true => [account_row sc taskId w (verification_succeeds sc)]
  | _ => []
  end.

(** The cookie rows [saveAccountToDatabase] sends after the account row:
    none when the account is refused or there is no cookie. *)
Definition gateway_cookie_rows (sc : Scenario) (cookies : list Cookie)
    : list (list CookieRow) :=
  match insertAccount sc, cookies with
  | Resolves (Inserted account_id), _ :: _ => [map (cookie_row account_id) cookies]
  | _, _ => []
  end.

(** The cookies [verifyEmail] hands to the gateway: those read after the
    verification page, when it got there, and else those it was called
    with. *)
Definition cookies_handed (sc : Scenario) (cookies : list Cookie) : list Cookie :=
  match first_link sc maxAttempts 0, goto_verify sc, finalCookies sc with
  | Some _, Resolves _, Resolves final => final
  | _, _, _ => cookies
  end.

(** Every [close()] of the verification resolves. *)
Definition closes_resolve (sc : Scenario) : Prop :=
  closeContext sc = Resolves tt /\ closeBrowser sc = Resolves tt /\
  closeContextCatch sc = Resolves tt /\ closeBrowserCatch sc = Resolves tt.

(** What [saveCookies] writes to the cookie file of the task. *)
Definition session_write (sc : Scenario) : list (list Cookie) :=
  match contextCookies sc, writeCookieFile sc with
  | Resolves cookies, Resolves _ => [cookies]
  | _, _ => []
  end.

(** What [solveCaptcha] returns. *)
Definition captcha_token (svc : Service) (sc : Scenario) : option string :=
  match captchaSolver svc, sitekey sc with
  | Some _, Resolves key =>
      match truthy key, recaptcha sc with
      | Some _, Resolves data => Some data
      | _, _ => None
      end
  | _, _ => None
  end.

(** The cookie rows that go with [gateway_calls]. *)
Definition gateway_cookies (sc : Scenario) (r : Res bool) : list (list CookieRow) :=
  match r with
  | Ok true =>
      gateway_cookie_rows sc
        (cookies_handed sc (default [] (resolved (contextCookies sc))))
  | _ => []
  end.

(** What an attempt reads from the cookie file of the task: one read, once
    the browser and its context are there. *)
Definition context_loads (sc : Scenario) (taskId : string) (w : World) : list bool :=
  match launch sc, newContext sc with
  | Resolves _, Resolves _ => [bool_decide (is_Some (cookieFiles w !! taskId))]
  | _, _ => []
  end.

(** ** What the further properties are stated with *)













Definition returned {A} (r : Res A) : bool :=
  match r with Ok _ => true | Throw _ => false end.




(** What the work on one task leaves of the rest of the service: the records
    and cookie files of the other tasks, the registered callbacks, and the
    rows and events already there. *)
Definition isolated (taskId : string) (w w' : World) : Prop :=
  (forall other, other <> taskId -> tasks w' !! other = tasks w !! other) /\
  (forall other, other <> taskId -> cookieFiles w' !! other = cookieFiles w !! other) /\
  updateCallbacks w' = updateCallbacks w /\
  (exists rows, replit_accounts w' = replit_accounts w ++ rows) /\
  (exists rows, cookies_table w' = cookies_table w ++ rows) /\
  (exists evs, trace w' = trace w ++ evs).

(** ** The cache of the mailbox client (server/services/cacheService.ts) *)

Module CacheService.

Record CacheEntry (T : Type) := {
  data : T;
  timestamp : Z;
  ttl : Z
}.
Arguments data {T} _.
Arguments timestamp {T} _.
Arguments ttl {T} _.

(** The cache, [new Map<string, CacheEntry<any>>()], is a
    [gmap string (CacheEntry T)]. *)

Definition DEFAULT_TTL : Z := 10000.

(** [set(key, data, ttlMs)]; [now] is what [Date.now()] returns. *)
Definition set {T} (now : Z) (key : string) (d : T) (ttlMs : Z)
    (c : gmap string (CacheEntry T)) : gmap string (CacheEntry T) :=
  <[key := {| data := d; timestamp := now; ttl := ttlMs |}]> c.

(** [get(key)]: the value, [None] for [null], and the cache it leaves. *)
Definition get {T} (now : Z) (key : string) (c : gmap string (CacheEntry T))
    : option T * gmap string (CacheEntry T) :=
  match c !! key with
  | None => (None, c)
  | Some entry =>
      let age := now - timestamp entry in
      if ttl entry <? age then (None, delete key c) else (Some (data entry), c)
  end.

(** [has(key)] *)
Definition has {T} (now : Z) (key : string) (c : gmap string (CacheEntry T))
    : bool * gmap string (CacheEntry T) :=
  match c !! key with
  | None => (false, c)
  | Some entry =>
      let age := now - timestamp entry in
      if ttl entry <? age then (false, delete key c) else (true, c)
  end.

(** [invalidate(key)] *)
Definition invalidate {T} (key : string) (c : gmap string (CacheEntry T))
    : gmap string (CacheEntry T) := delete key c.

(** [invalidatePattern(pattern)] *)
Definition invalidatePattern {T} (pattern : string) (c : gmap string (CacheEntry T))
    : gmap string (CacheEntry T) :=
  let allKeys := (map_to_list c).*1 in
  let keysToDelete := List.filter (fun key => JsString.includes key pattern) allKeys in
  foldl (fun m key => delete key m) c keysToDelete.

(** [clear()] *)
Definition clear {T} (c : gmap string (CacheEntry T))
    : gmap string (CacheEntry T) := ∅.

Record Stats := { total : nat; valid : nat; expired : nat }.

(** [getStats()] *)
Definition getStats {T} (now : Z) (c : gmap string (CacheEntry T)) : Stats :=
  let entries := map_to_list c in
  let valid := List.filter (fun e => now - timestamp (snd e) <=? ttl (snd e)) entries in
  {| total := length entries;
     valid := length valid;
     expired := length entries - length valid |}.

End CacheService.

(** ** The mailbox client (server/services/emailService.ts) *)

Module EmailService.

Definition cacheTTL : Z := 10000.

Definition cacheKey (email : string) : string := "messages:" +:+ email.

(** What the outside world decides during one call of [getMessages]: the
    clock when the cache is read, the outcome of the request together with
    the normalisation of its answer (every exception of the [try] block), and
    the clock when the answer is stored. *)
Record Call := {
  read_at : Z;
  fetched : Outcome (list Message);
  stored_at : Z
}.

(** The answer of [getMessages], with a ghost flag telling whether the
    mailbox API was requested. *)
Record Reply := {
  messages : list Message;
  requested : bool
}.

Definition fetch (call : Call) (key : string)
    (c : gmap string (CacheService.CacheEntry (list Message)))
    : Reply * gmap string (CacheService.CacheEntry (list Message)) :=
  match fetched call with
  | Resolves ms =>
      ({| messages := ms; requested := true |},
       CacheService.set (stored_at call) key ms cacheTTL c)
  | Rejects _ => ({| messages := []; requested := true |}, c)
  end.

(** [getMessages(email, bypassCache)] *)
Definition getMessages (call : Call) (email : string) (bypassCache : bool)
    (c : gmap string (CacheService.CacheEntry (list Message)))
    : Reply * gmap string (CacheService.CacheEntry (list Message)) :=
  let cacheKey := cacheKey email in
  if negb bypassCache then
    match CacheService.get (read_at call) cacheKey c with
    | (Some cached, c') => ({| messages := cached; requested := false |}, c')
    | (None, c') => fetch call cacheKey c'
    end
  else fetch call cacheKey c.

(** [invalidateCache(email)] *)
Definition invalidateCache (email : string)
    (c : gmap string (CacheService.CacheEntry (list Message)))
    : gmap string (CacheService.CacheEntry (list Message)) :=
  CacheService.invalidate (cacheKey email) c.

(** [invalidateAllCaches()] *)
Definition invalidateAllCaches (c : gmap string (CacheService.CacheEntry (list Message)))
    : gmap string (CacheService.CacheEntry (list Message)) :=
  CacheService.invalidatePattern "messages:" c.

End EmailService.

(** * Properties *)

(** ** The rules of [steady] and [safe] *)

Section Rules.

Context (R : World -> World -> Prop) `{!PreOrder R}.

Lemma steady_ret {A} (a : A) : steady R (ret a).
Proof. intros w. reflexivity. Qed.

Lemma steady_throw {A} e : steady R (@throw A e).
Proof. intros w. reflexivity. Qed.

Lemma steady_gets {A} (f : World -> A) : steady R (gets f).
Proof. intros w. reflexivity. Qed.

Lemma steady_await {A} (o : Outcome A) : steady R (await o).
Proof. destruct o; intros w; reflexivity. Qed.

Lemma steady_modify f : (forall w, R w (f w)) -> steady R (modify f).
Proof. intros H w. apply H. Qed.

Lemma steady_bind {A B} (m : M A) (k : A -> M B) :
  steady R m -> (forall a, steady R (k a)) -> steady R (bind m k).
Proof.
  intros Hm Hk w. unfold bind. specialize (Hm w).
  destruct (m w) as [[a|e] w1]; simpl in *; [|exact Hm].
  etransitivity; [exact Hm|apply Hk].
Qed.

Lemma steady_try_catch {A} (m : M A) h :
  steady R m -> (forall e, steady R (h e)) -> steady R (try_catch m h).
Proof.
  intros Hm Hh w. unfold try_catch. specialize (Hm w).
  destruct (m w) as [[a|e] w1]; simpl in *; [exact Hm|].
  etransitivity; [exact Hm|apply Hh].
Qed.

Lemma steady_try_finally {A} (m : M A) f :
  steady R m -> (forall w, R w (f w)) -> steady R (try_finally m f).
Proof.
  intros Hm Hf w. unfold try_finally. specialize (Hm w).
  destruct (m w) as [r w1]; simpl in *.
  etransitivity; [exact Hm|apply Hf].
Qed.

End Rules.

Lemma safe_ret {A} (a : A) : safe (ret a).
Proof. intros w. by exists a. Qed.

Lemma safe_modify f : safe (modify f).
Proof. intros w. by exists tt. Qed.

Lemma safe_gets {A} (f : World -> A) : safe (gets f).
Proof. intros w. by eexists. Qed.

Lemma safe_bind {A B} (m : M A) (k : A -> M B) :
  safe m -> (forall a, safe (k a)) -> safe (bind m k).
Proof.
  intros Hm Hk w. unfold bind. destruct (Hm w) as [a Ha].
  destruct (m w) as [r w1]; simpl in Ha; subst r. apply Hk.
Qed.

Lemma safe_try_catch {A} (m : M A) h :
  (forall e, safe (h e)) -> safe (try_catch m h).
Proof.
  intros Hh w. unfold try_catch.
  destruct (m w) as [[a|e] w1]; [by exists a|apply Hh].
Qed.

(** A computation that cannot throw and whose result is dropped. *)
Lemma bind_safe {A B} (m : M A) (k : M B) w :
  safe m -> bind m (fun _ => k) w = k (snd (m w)).
Proof.
  intros Hm. unfold bind. destruct (Hm w) as [a Ha].
  destruct (m w) as [r w1]; simpl in *; by subst r.
Qed.

(** ** What an attempt leaves alone *)

Lemma step_names_set_step stepId s l :
  step_names (set_step stepId s l) = step_names l.
Proof.
  induction l as [|x l IH]; [done|]. simpl.
  destruct (String.eqb (Step.id x) stepId); simpl; [done|]. by rewrite IH.
Qed.

Lemma length_set_step stepId s l : length (set_step stepId s l) = length l.
Proof.
  induction l as [|x l IH]; [done|]. simpl.
  destruct (String.eqb (Step.id x) stepId); simpl; [done|]. by rewrite IH.
Qed.

Lemma task_inert_push_log l : task_inert (push_log l).
Proof. by intros []. Qed.
Lemma task_inert_push_debugLog l : task_inert (push_debugLog l).
Proof. by intros []. Qed.
Lemma task_inert_push_screenshot l : task_inert (push_screenshot l).
Proof. by intros []. Qed.
Lemma task_inert_push_errorMessage l : task_inert (push_errorMessage l).
Proof. by intros []. Qed.
Lemma task_inert_set_step stepId s :
  task_inert (fun t => Task.with_steps (set_step stepId s (Task.steps t)) t).
Proof. intros []. simpl. by rewrite step_names_set_step. Qed.

Create HintDb moves discriminated.

Global Instance attempt_moves_po : PreOrder attempt_moves.
Proof. unfold attempt_moves. apply _. Qed.

Lemma moves_task taskId f w : task_inert f -> attempt_moves w (on_task taskId f w).
Proof. intros. apply rtc_once. by constructor. Qed.

Lemma moves_record evs w :
  forallb (fun e => negb (controller_event e)) evs = true ->
  attempt_moves w (record evs w).
Proof. intros. apply rtc_once. by constructor. Qed.

Lemma moves_handles b c p w : attempt_moves w (with_handles b c p w).
Proof. apply rtc_once. constructor. Qed.

Lemma moves_cookieFiles f w : attempt_moves w (with_cookieFiles f w).
Proof. apply rtc_once. constructor. Qed.

Lemma moves_database a c w : attempt_moves w (with_database a c w).
Proof. apply rtc_once. constructor. Qed.

Lemma notifications_quiet taskId w :
  forallb (fun e => negb (controller_event e)) (notifications taskId w) = true.
Proof.
  unfold notifications. destruct (tasks w !! taskId); [|done].
  induction (default [] (updateCallbacks w !! taskId)); [done|]. simpl. done.
Qed.

Lemma closed_events_quiet b c p :
  forallb (fun e => negb (controller_event e)) (closed_events b c p) = true.
Proof. by destruct b, c, p. Qed.

Global Hint Resolve task_inert_push_log task_inert_push_debugLog
  task_inert_push_screenshot task_inert_push_errorMessage task_inert_set_step
  moves_task moves_record moves_handles moves_cookieFiles moves_database
  notifications_quiet closed_events_quiet : moves.

(** Decomposition of a computation along its syntax. *)
Ltac moves_step :=
  first
    [ solve [auto 1 with moves nocore]
    | match goal with
      | |- PreOrder _ => typeclasses eauto
      | |- steady _ (ret _) => apply steady_ret
      | |- steady _ (throw _) => apply steady_throw
      | |- steady _ (gets _) => apply steady_gets
      | |- steady _ (await _) => apply steady_await
      | |- steady _ (bind _ _) => apply steady_bind; [| |intros ?; cbv beta]
      | |- steady _ (try_catch _ _) => apply steady_try_catch; [| |intros ?; cbv beta]
      | |- steady _ (modify _) => apply steady_modify; intros ?
      | |- steady _ (match ?x with _ => _ end) => destruct x
      end ].

Ltac moves := repeat moves_step; eauto with moves.

Section AttemptMoves.

Variable svc : Service.
Variable sc : Scenario.

Lemma notifyUpdate_moves taskId : steady attempt_moves (notifyUpdate taskId).
Proof. unfold notifyUpdate. moves. Qed.

Hint Resolve notifyUpdate_moves : moves.

Lemma addLog_moves taskId l : steady attempt_moves (addLog taskId l).
Proof. unfold addLog. moves. Qed.

Lemma addDebugLog_moves taskId l : steady attempt_moves (addDebugLog svc taskId l).
Proof. unfold addDebugLog. moves. Qed.

Lemma updateStep_moves taskId stepId s l :
  steady attempt_moves (updateStep taskId stepId s l).
Proof. unfold updateStep. moves. Qed.

Lemma close_all_moves : steady attempt_moves close_all.
Proof.
  unfold close_all. moves.
  etransitivity; [apply moves_handles|apply moves_record]. apply closed_events_quiet.
Qed.

Hint Resolve addLog_moves addDebugLog_moves updateStep_moves
  close_all_moves : moves.

Lemma sleep_moves ms : steady attempt_moves (sleep ms).
Proof. unfold sleep. moves. Qed.

Lemma saveCookies_moves taskId : steady attempt_moves (saveCookies sc taskId).
Proof.
  unfold saveCookies. moves.
  etransitivity; [apply moves_cookieFiles|by apply moves_record].
Qed.

Lemma loadCookies_moves taskId : steady attempt_moves (loadCookies sc taskId).
Proof. unfold loadCookies. moves. Qed.

Lemma solveCaptcha_moves taskId : steady attempt_moves (solveCaptcha svc sc taskId).
Proof. unfold solveCaptcha. moves. Qed.

Lemma injectCaptchaSolution_moves taskId :
  steady attempt_moves (injectCaptchaSolution svc sc taskId).
Proof. unfold injectCaptchaSolution. moves. Qed.

Hint Resolve sleep_moves saveCookies_moves loadCookies_moves solveCaptcha_moves
  injectCaptchaSolution_moves : moves.

Lemma saveAccountToDatabase_moves taskId cookies verified :
  steady attempt_moves (saveAccountToDatabase svc sc taskId cookies verified).
Proof. unfold saveAccountToDatabase. moves. Qed.

Lemma poll_moves taskId budget attempts :
  steady attempt_moves (poll svc sc taskId budget attempts).
Proof.
  revert attempts. induction budget as [|b IH]; intros attempts; simpl; moves.
Qed.

Lemma close_in_verify_moves r o : steady attempt_moves (close_in_verify r o).
Proof.
  unfold close_in_verify. moves.
  destruct r; (etransitivity; [apply moves_handles|by apply moves_record]).
Qed.

Hint Resolve saveAccountToDatabase_moves poll_moves close_in_verify_moves : moves.

Lemma verifyEmail_moves taskId cookies :
  steady attempt_moves (verifyEmail svc sc taskId cookies).
Proof. unfold verifyEmail. moves. Qed.

Hint Resolve verifyEmail_moves : moves.

Lemma report_other_errors_moves taskId content patterns detected :
  steady attempt_moves (report_other_errors taskId content patterns detected).
Proof.
  revert detected. induction patterns as [|[p m] rest IH]; intros detected; simpl;
    moves.
Qed.

Lemma report_alerts_moves taskId texts :
  steady attempt_moves (report_alerts taskId texts).
Proof. induction texts as [|t rest IH]; simpl; moves. Qed.

Hint Resolve report_other_errors_moves report_alerts_moves : moves.

Lemma resubmit_moves taskId : steady attempt_moves (resubmit svc sc taskId).
Proof. unfold resubmit. moves. Qed.

Hint Resolve resubmit_moves : moves.

Lemma classify_moves taskId content :
  steady attempt_moves (classify svc sc taskId content).
Proof. unfold classify. moves. Qed.

Hint Resolve classify_moves : moves.

Lemma submit_form_moves taskId n : steady attempt_moves (submit_form svc sc taskId n).
Proof. unfold submit_form. moves. Qed.

Hint Resolve submit_form_moves : moves.

Lemma signup_moves taskId n : steady attempt_moves (signup svc sc taskId n).
Proof. unfold signup. moves. Qed.

Lemma attemptSignup_moves taskId n :
  steady attempt_moves (attemptSignup svc sc taskId n).
Proof. unfold attemptSignup. moves. apply signup_moves. Qed.

End AttemptMoves.

(** ** Consequences of [attempt_moves] *)

Lemma omap_snoc {A B} (f : A -> option B) l x :
  omap f (l ++ [x]) = omap f l ++ option_list (f x).
Proof. rewrite omap_app. simpl. by destruct (f x). Qed.

Lemma omap_quiet {B} (f : Event -> option B) evs :
  (forall e, controller_event e = false -> f e = None) ->
  forallb (fun e => negb (controller_event e)) evs = true ->
  omap f evs = [].
Proof.
  intros Hf. induction evs as [|e evs IH]; [done|]. simpl.
  intros [He Hevs]%andb_prop. apply negb_true_iff in He.
  rewrite (Hf e He). by apply IH.
Qed.

Lemma attempt_step_status_writes taskId w w' :
  attempt_step w w' ->
  status_writes taskId (trace w') = status_writes taskId (trace w).
Proof.
  destruct 1; simpl; try done.
  unfold status_writes. rewrite omap_app, (omap_quiet _ evs), app_nil_r; try done.
  by intros [].
Qed.

Lemma attempt_step_attempts_made taskId w w' :
  attempt_step w w' ->
  attempts_made taskId (trace w') = attempts_made taskId (trace w).
Proof.
  destruct 1; simpl; try done.
  unfold attempts_made. rewrite omap_app, (omap_quiet _ evs), app_nil_r; try done.
  by intros [].
Qed.

Lemma task_inert_static f t : task_inert f -> static (f t) = static t.
Proof.
  intros H. destruct (H t) as (?&?&?&?&?&?&?&?). unfold static. congruence.
Qed.

Lemma attempt_step_static taskId w w' :
  attempt_step w w' ->
  static <$> tasks w' !! taskId = static <$> tasks w !! taskId.
Proof.
  destruct 1 as [i f w Hf| | | |]; simpl; try done.
  rewrite lookup_alter. case_decide; [subst|done].
  destruct (tasks w !! taskId) as [t|]; simpl; [|done].
  by rewrite task_inert_static.
Qed.

Lemma attempt_step_callbacks w w' :
  attempt_step w w' -> updateCallbacks w' = updateCallbacks w.
Proof. by destruct 1. Qed.

Lemma moves_status_writes taskId w w' :
  attempt_moves w w' ->
  status_writes taskId (trace w') = status_writes taskId (trace w).
Proof.
  induction 1 as [|x y z Hxy _ IH]; [done|].
  by rewrite IH, (attempt_step_status_writes _ _ _ Hxy).
Qed.

Lemma moves_attempts_made taskId w w' :
  attempt_moves w w' ->
  attempts_made taskId (trace w') = attempts_made taskId (trace w).
Proof.
  induction 1 as [|x y z Hxy _ IH]; [done|].
  by rewrite IH, (attempt_step_attempts_made _ _ _ Hxy).
Qed.

Lemma moves_static taskId w w' :
  attempt_moves w w' ->
  static <$> tasks w' !! taskId = static <$> tasks w !! taskId.
Proof.
  induction 1 as [|x y z Hxy _ IH]; [done|].
  by rewrite IH, (attempt_step_static _ _ _ Hxy).
Qed.

Lemma moves_callbacks w w' :
  attempt_moves w w' -> updateCallbacks w' = updateCallbacks w.
Proof.
  induction 1 as [|x y z Hxy _ IH]; [done|].
  by rewrite IH, (attempt_step_callbacks _ _ Hxy).
Qed.

Lemma moves_task_status taskId w w' :
  attempt_moves w w' -> task_status taskId w' = task_status taskId w.
Proof.
  intros H. apply (moves_static taskId) in H. unfold task_status.
  destruct (tasks w' !! taskId) as [t'|], (tasks w !! taskId) as [t|];
    simpl in *; try done.
  unfold static in H. congruence.
Qed.

Lemma moves_is_Some taskId w w' :
  attempt_moves w w' -> is_Some (tasks w !! taskId) -> is_Some (tasks w' !! taskId).
Proof.
  intros H [t Ht]. apply (moves_static taskId) in H. rewrite Ht in H.
  destruct (tasks w' !! taskId); [by eexists|done].
Qed.

Global Hint Resolve notifyUpdate_moves addLog_moves addDebugLog_moves
  updateStep_moves close_all_moves sleep_moves attemptSignup_moves : moves.

(** ** Code that cannot throw *)

Ltac safe_step :=
  first
    [ solve [auto 1 with safe nocore]
    | match goal with
      | |- safe (ret _) => apply safe_ret
      | |- safe (gets _) => apply safe_gets
      | |- safe (modify _) => apply safe_modify
      | |- safe (bind _ _) => apply safe_bind; [|intros ?; cbv beta]
      | |- safe (try_catch _ _) => apply safe_try_catch; intros ?; cbv beta
      | |- safe (match ?x with _ => _ end) => destruct x
      end ].

Ltac safety := repeat safe_step.

Create HintDb safe discriminated.

Section Safety.

Variable svc : Service.
Variable sc : Scenario.

Lemma notifyUpdate_safe taskId : safe (notifyUpdate taskId).
Proof. unfold notifyUpdate. safety. Qed.

Hint Resolve notifyUpdate_safe : safe.

Lemma addLog_safe taskId l : safe (addLog taskId l).
Proof. unfold addLog. safety. Qed.

Lemma addDebugLog_safe taskId l : safe (addDebugLog svc taskId l).
Proof. unfold addDebugLog. safety. Qed.

Lemma updateStep_safe taskId stepId s l : safe (updateStep taskId stepId s l).
Proof. unfold updateStep. safety. Qed.

Lemma close_all_safe : safe close_all.
Proof. unfold close_all. safety. Qed.

Lemma sleep_safe ms : safe (sleep ms).
Proof. unfold sleep. safety. Qed.

Hint Resolve addLog_safe addDebugLog_safe updateStep_safe close_all_safe
  sleep_safe : safe.

Lemma saveCookies_safe taskId : safe (saveCookies sc taskId).
Proof. unfold saveCookies. safety. Qed.

Lemma loadCookies_safe taskId : safe (loadCookies sc taskId).
Proof. unfold loadCookies. safety. Qed.

Lemma solveCaptcha_safe taskId : safe (solveCaptcha svc sc taskId).
Proof. unfold solveCaptcha. safety. Qed.

Lemma injectCaptchaSolution_safe taskId : safe (injectCaptchaSolution svc sc taskId).
Proof. unfold injectCaptchaSolution. safety. Qed.

Lemma saveAccountToDatabase_safe taskId cookies verified :
  safe (saveAccountToDatabase svc sc taskId cookies verified).
Proof. unfold saveAccountToDatabase. safety. Qed.

Lemma attemptSignup_safe taskId n : safe (attemptSignup svc sc taskId n).
Proof. unfold attemptSignup. safety. Qed.

End Safety.

Global Hint Resolve notifyUpdate_safe addLog_safe addDebugLog_safe updateStep_safe
  close_all_safe sleep_safe saveCookies_safe loadCookies_safe solveCaptcha_safe
  injectCaptchaSolution_safe saveAccountToDatabase_safe attemptSignup_safe : safe.

(** A computation that is safe and made of attempt moves. *)
Lemma quiet_run {A} (m : M A) w :
  steady attempt_moves m -> safe m ->
  exists a w', m w = (Ok a, w') /\ attempt_moves w w'.
Proof.
  intros Hs Hsafe. destruct (Hsafe w) as [a Ha]. specialize (Hs w).
  destruct (m w) as [r w']; simpl in *; subst r. by exists a, w'.
Qed.

Lemma bind_modify {B} f (k : unit -> M B) w : bind (modify f) k w = k tt (f w).
Proof. reflexivity. Qed.

Lemma bind_quiet {A B} (m : M A) (k : A -> M B) w :
  steady attempt_moves m -> safe m ->
  exists a w', attempt_moves w w' /\ bind m k w = k a w'.
Proof.
  intros Hs Hsafe. destruct (quiet_run m w Hs Hsafe) as (a & w' & E & Hm).
  exists a, w'. split; [done|]. unfold bind. by rewrite E.
Qed.

(** ** The writes of the retry controller *)

Lemma status_writes_set_status taskId s w :
  status_writes taskId (trace (set_status taskId s w)) =
  status_writes taskId (trace w) ++ [s].
Proof.
  simpl. unfold status_writes. rewrite omap_app. simpl. by rewrite String.eqb_refl.
Qed.

Lemma attempts_made_set_status taskId s w :
  attempts_made taskId (trace (set_status taskId s w)) = attempts_made taskId (trace w).
Proof. simpl. unfold attempts_made. rewrite omap_app. simpl. by rewrite app_nil_r. Qed.

Lemma task_status_set_status taskId s w :
  is_Some (tasks w !! taskId) -> task_status taskId (set_status taskId s w) = Some s.
Proof.
  intros [t Ht]. unfold task_status. simpl. rewrite lookup_alter.
  case_decide; [|done]. by rewrite Ht.
Qed.

Lemma task_status_on_task taskId f w :
  (forall t, Task.status (f t) = Task.status t) ->
  task_status taskId (on_task taskId f w) = task_status taskId w.
Proof.
  intros Hf. unfold task_status. simpl. rewrite lookup_alter.
  case_decide; [|done]. destruct (tasks w !! taskId); simpl; [|done]. by rewrite Hf.
Qed.

Lemma is_Some_on_task taskId i f w :
  is_Some (tasks w !! taskId) -> is_Some (tasks (on_task i f w) !! taskId).
Proof.
  intros [t Ht]. simpl. rewrite lookup_alter.
  case_decide; subst; rewrite Ht; by eexists.
Qed.

Lemma moves_completedAt taskId w w' :
  attempt_moves w w' -> task_completedAt taskId w' = task_completedAt taskId w.
Proof.
  intros H. apply (moves_static taskId) in H. unfold task_completedAt.
  destruct (tasks w' !! taskId) as [t'|], (tasks w !! taskId) as [t|];
    simpl in *; try done.
  unfold static in H. congruence.
Qed.

Lemma completedAt_on_task taskId c w :
  is_Some (tasks w !! taskId) ->
  task_completedAt taskId (on_task taskId (Task.with_completedAt (Some c)) w) = Some c.
Proof.
  intros [t Ht]. unfold task_completedAt. simpl. rewrite lookup_alter.
  case_decide; [|done]. by rewrite Ht.
Qed.

Lemma attempts_made_record_attempt taskId n w :
  attempts_made taskId (trace (record [EvAttempt taskId n] w)) =
  attempts_made taskId (trace w) ++ [n].
Proof.
  simpl. unfold attempts_made. rewrite omap_app. simpl. by rewrite String.eqb_refl.
Qed.

Lemma status_writes_record_attempt taskId n w :
  status_writes taskId (trace (record [EvAttempt taskId n] w)) =
  status_writes taskId (trace w).
Proof. simpl. unfold status_writes. rewrite omap_app. simpl. by rewrite app_nil_r. Qed.

(** ** The retry controller, for any attempt function made of attempt moves *)

Section RetryProps.

Variable svc : Service.
Variable env : Env.
Variable attempt : string -> nat -> M bool.
Hypothesis attempt_moves_only :
  forall taskId n, steady attempt_moves (attempt taskId n).

Lemma reset_for_retry_moves taskId n :
  steady attempt_moves (reset_for_retry svc env taskId n).
Proof.
  unfold reset_for_retry. moves.
  all: apply moves_task; intros []; simpl; repeat split; try done.
  unfold step_names. rewrite map_map. apply map_ext. by intros [i l []].
Qed.

Lemma reset_for_retry_safe taskId n : safe (reset_for_retry svc env taskId n).
Proof. unfold reset_for_retry. safety. Qed.

Lemma before_attempt taskId n w :
  is_Some (tasks w !! taskId) ->
  exists w2,
    ((if (1 <? n)%nat then reset_for_retry svc env taskId n else ret tt);;
     modify (record [EvAttempt taskId n]);;
     ret tt) w = (Ok tt, w2) /\
    is_Some (tasks w2 !! taskId) /\
    status_writes taskId (trace w2) = status_writes taskId (trace w) /\
    attempts_made taskId (trace w2) = attempts_made taskId (trace w) ++ [n].
Proof.
  intros Hw.
  destruct (quiet_run (if (1 <? n)%nat then reset_for_retry svc env taskId n
                       else ret tt) w) as (a & w1 & E1 & Hm1).
  { destruct (1 <? n)%nat; [apply reset_for_retry_moves|moves]. }
  { destruct (1 <? n)%nat; [apply reset_for_retry_safe|safety]. }
  unfold bind at 1. rewrite E1. rewrite bind_modify.
  eexists. split; [reflexivity|]. split; [|split].
  - simpl. eapply moves_is_Some; [exact Hm1|exact Hw].
  - rewrite status_writes_record_attempt. by apply moves_status_writes.
  - rewrite attempts_made_record_attempt. by rewrite (moves_attempts_made _ _ _ Hm1).
Qed.

(** One turn of the loop, up to the call of the attempt function. *)
Lemma retry_loop_turn taskId rem n w :
  is_Some (tasks w !! taskId) ->
  exists w2,
    retry_loop svc env attempt taskId (S rem) n w =
      (success <- attempt taskId n;;
       if success : bool then
         modify (set_status taskId completed);;
         modify (on_task taskId (Task.with_completedAt (Some (completed_now env))));;
         notifyUpdate taskId;;
         modify (record [EvInterval taskId false])
       else retry_loop svc env attempt taskId rem (S n)) w2 /\
    is_Some (tasks w2 !! taskId) /\
    status_writes taskId (trace w2) = status_writes taskId (trace w) /\
    attempts_made taskId (trace w2) = attempts_made taskId (trace w) ++ [n].
Proof.
  intros Hw. destruct (before_attempt taskId n w Hw) as (w2 & E & H).
  exists w2. split; [|exact H]. simpl retry_loop.
  unfold bind at 1 in E. unfold bind at 1.
  destruct ((if (1 <? n)%nat then reset_for_retry svc env taskId n else ret tt) w)
    as [[[]|e] w1]; [|done].
  rewrite bind_modify in *. simpl in E. by injection E as ->.
Qed.

Lemma finish_block taskId s (rest : M unit) w :
  steady attempt_moves rest -> safe rest -> is_Some (tasks w !! taskId) ->
  exists w',
    (modify (set_status taskId s);;
     modify (on_task taskId (Task.with_completedAt (Some (completed_now env))));;
     rest) w = (Ok tt, w') /\
    is_Some (tasks w' !! taskId) /\
    status_writes taskId (trace w') = status_writes taskId (trace w) ++ [s] /\
    attempts_made taskId (trace w') = attempts_made taskId (trace w) /\
    task_status taskId w' = Some s /\
    task_completedAt taskId w' = Some (completed_now env).
Proof.
  intros Hm Hs Hw. rewrite !bind_modify.
  set (w1 := on_task _ _ _).
  destruct (quiet_run rest w1 Hm Hs) as ([] & w' & E & Hmv).
  exists w'. split; [done|].
  assert (Hw1 : is_Some (tasks w1 !! taskId)).
  { subst w1. apply is_Some_on_task. unfold set_status. simpl.
    apply (is_Some_on_task taskId taskId _ w Hw). }
  split; [by eapply moves_is_Some|].
  rewrite (moves_status_writes _ _ _ Hmv), (moves_attempts_made _ _ _ Hmv),
    (moves_task_status _ _ _ Hmv), (moves_completedAt _ _ _ Hmv).
  subst w1. repeat split.
  - apply status_writes_set_status.
  - apply attempts_made_set_status.
  - rewrite task_status_on_task by done. by apply task_status_set_status.
  - apply completedAt_on_task. apply (is_Some_on_task taskId taskId _ w Hw).
Qed.


(** The loop when the attempts answer as prescribed. *)
Lemma retry_loop_success taskId k : forall rem n w,
  (k < rem)%nat ->
  is_Some (tasks w !! taskId) ->
  (forall j w, (j < k)%nat -> exists w', attempt taskId (n + j) w = (Ok false, w')) ->
  (forall w, exists w', attempt taskId (n + k) w = (Ok true, w')) ->
  exists w', retry_loop svc env attempt taskId rem n w = (Ok tt, w') /\
    task_status taskId w' = Some completed /\
    task_completedAt taskId w' = Some (completed_now env) /\
    attempts_made taskId (trace w') = attempts_made taskId (trace w) ++ seq n (S k).
Proof.
  induction k as [|k IH]; intros rem n w Hk Hw Hfail Hsucc;
    (destruct rem as [|rem]; [lia|]);
    destruct (retry_loop_turn taskId rem n w Hw) as (w2 & -> & Hw2 & _ & Ha2);
    unfold bind at 1; pose proof (attempt_moves_only taskId n w2) as Hm3.
  - destruct (Hsucc w2) as [w3 E3]. rewrite Nat.add_0_r in E3.
    rewrite E3 in *. simpl in Hm3.
    edestruct (finish_block taskId completed) as (w' & E & ? & ? & Ha & ? & ?);
      [| |eapply moves_is_Some; [exact Hm3|exact Hw2]|rewrite E].
    { moves. } { safety. }
    exists w'. repeat split; try done.
    by rewrite Ha, (moves_attempts_made _ _ _ Hm3), Ha2.
  - destruct (Hfail 0%nat w2) as [w3 E3]; [lia|]. rewrite Nat.add_0_r in E3.
    rewrite E3 in *. simpl in Hm3.
    destruct (IH rem (S n) w3) as (w' & E & ? & ? & Ha); [lia| | | |].
    + eapply moves_is_Some; [exact Hm3|exact Hw2].
    + intros j w0 Hj. destruct (Hfail (S j) w0) as [w0' E0]; [lia|].
      exists w0'. by replace (S n + j)%nat with (n + S j)%nat by lia.
    + intros w0. destruct (Hsucc w0) as [w0' E0].
      exists w0'. by replace (S n + k)%nat with (n + S k)%nat by lia.
    + exists w'. repeat split; try done.
      rewrite Ha, (moves_attempts_made _ _ _ Hm3), Ha2.
      by rewrite <- app_assoc.
Qed.

Lemma retry_loop_exhausted taskId : forall rem n w,
  is_Some (tasks w !! taskId) ->
  (forall j w, (j < rem)%nat -> exists w', attempt taskId (n + j) w = (Ok false, w')) ->
  exists w', retry_loop svc env attempt taskId rem n w = (Ok tt, w') /\
    task_status taskId w' = Some failed /\
    task_completedAt taskId w' = Some (completed_now env) /\
    attempts_made taskId (trace w') = attempts_made taskId (trace w) ++ seq n rem.
Proof.
  induction rem as [|rem IH]; intros n w Hw Hfail.
  - simpl retry_loop.
    edestruct (finish_block taskId failed) as (w' & E & ? & ? & Ha & ? & ?);
      [| |exact Hw|rewrite E].
    { moves. } { safety. }
    exists w'. repeat split; try done. by rewrite Ha, app_nil_r.
  - destruct (retry_loop_turn taskId rem n w Hw) as (w2 & -> & Hw2 & _ & Ha2).
    unfold bind at 1; pose proof (attempt_moves_only taskId n w2) as Hm3.
    destruct (Hfail 0%nat w2) as [w3 E3]; [lia|]. rewrite Nat.add_0_r in E3.
    rewrite E3 in *. simpl in Hm3.
    destruct (IH (S n) w3) as (w' & E & ? & ? & Ha).
    + eapply moves_is_Some; [exact Hm3|exact Hw2].
    + intros j w0 Hj. destruct (Hfail (S j) w0) as [w0' E0]; [lia|].
      exists w0'. by replace (S n + j)%nat with (n + S j)%nat by lia.
    + exists w'. repeat split; try done.
      rewrite Ha, (moves_attempts_made _ _ _ Hm3), Ha2.
      by rewrite <- app_assoc.
Qed.

(** The code of [runAutomation] before the loop. *)
Lemma runAutomationWith_unfold taskId w :
  is_Some (tasks w !! taskId) ->
  exists w1,
    runAutomationWith svc env attempt taskId w =
      try_finally (retry_loop svc env attempt taskId MAX_RETRIES 1)
                  (record [EvInterval taskId false]) w1 /\
    is_Some (tasks w1 !! taskId) /\
    status_writes taskId (trace w1) = status_writes taskId (trace w) ++ [running] /\
    attempts_made taskId (trace w1) = attempts_made taskId (trace w).
Proof.
  intros Hw. unfold runAutomationWith. unfold bind at 1, gets.
  destruct Hw as [t Ht]. rewrite Ht. rewrite bind_modify.
  destruct (quiet_run (notifyUpdate taskId) (set_status taskId running w))
    as ([] & w1 & E1 & Hm1); [moves|safety|].
  unfold bind at 1. rewrite E1.
  destruct (quiet_run (addDebugLog svc taskId "▶️ Démarrage de l'automatisation...") w1)
    as ([] & w2 & E2 & Hm2); [moves|safety|].
  unfold bind at 1. rewrite E2. rewrite bind_modify.
  eexists. split; [reflexivity|].
  assert (Hm : attempt_moves (set_status taskId running w)
                             (record [EvInterval taskId true] w2)).
  { etransitivity; [exact Hm1|]. etransitivity; [exact Hm2|]. by apply moves_record. }
  split; [|split].
  - eapply moves_is_Some; [exact Hm|]. apply is_Some_on_task. by eexists.
  - rewrite (moves_status_writes _ _ _ Hm). apply status_writes_set_status.
  - rewrite (moves_attempts_made _ _ _ Hm). apply attempts_made_set_status.
Qed.

End RetryProps.

(** ** The status of a task over its lifetime *)

Section Lifetime.

Variable svc : Service.
Variable env : Env.
Variable attempt : string -> nat -> M bool.
Hypothesis attempt_moves_only :
  forall taskId n, steady attempt_moves (attempt taskId n).




End Lifetime.


(** ** The retry loop on prescribed attempt results *)

Lemma fst_eq_run {A} (m : M A) (r : Res A) w :
  fst (m w) = r -> exists w', m w = (r, w').
Proof. destruct (m w) as [r' w']. simpl. intros ->. by exists w'. Qed.

Section Prescribed.

Variable svc : Service.
Variable env : Env.
Variable attempt : string -> nat -> M bool.
Hypothesis attempt_moves_only :
  forall taskId n, steady attempt_moves (attempt taskId n).

Lemma after_finally taskId (r : Res unit) w w2 s c l :
  retry_loop svc env attempt taskId MAX_RETRIES 1 w = (r, w2) ->
  task_status taskId w2 = Some s ->
  task_completedAt taskId w2 = Some c ->
  attempts_made taskId (trace w2) = l ->
  let out := try_finally (retry_loop svc env attempt taskId MAX_RETRIES 1)
                         (record [EvInterval taskId false]) w in
  fst out = r /\ task_status taskId (snd out) = Some s /\
  task_completedAt taskId (snd out) = Some c /\
  attempts_made taskId (trace (snd out)) = l.
Proof.
  intros E Hs Hc Ha. unfold try_finally. rewrite E. simpl.
  repeat split; try done.
  unfold attempts_made. rewrite omap_app. simpl. by rewrite app_nil_r.
Qed.

Lemma runAutomationWith_success taskId k w :
  is_Some (tasks w !! taskId) ->
  (1 <= k <= MAX_RETRIES)%nat ->
  (forall j v, (1 <= j < k)%nat -> fst (attempt taskId j v) = Ok false) ->
  (forall v, fst (attempt taskId k v) = Ok true) ->
  let out := runAutomationWith svc env attempt taskId w in
  fst out = Ok tt /\
  task_status taskId (snd out) = Some completed /\
  task_completedAt taskId (snd out) = Some (completed_now env) /\
  attempts_made taskId (trace (snd out)) =
    attempts_made taskId (trace w) ++ seq 1 k.
Proof.
  intros Hw Hk Hfail Hsucc out. subst out.
  destruct (runAutomationWith_unfold svc env attempt taskId w Hw)
    as (w1 & -> & Hw1 & _ & Ha1).
  destruct k as [|k]; [lia|].
  destruct (retry_loop_success svc env attempt attempt_moves_only taskId k
              MAX_RETRIES 1 w1) as (w2 & E & Hs & Hc & Ha); [lia|done| | |].
  - intros j v Hj. apply fst_eq_run, Hfail. lia.
  - intros v. apply fst_eq_run, Hsucc.
  - rewrite Ha1 in Ha. by eapply after_finally.
Qed.

Lemma runAutomationWith_exhausted taskId w :
  is_Some (tasks w !! taskId) ->
  (forall j v, (1 <= j <= MAX_RETRIES)%nat -> fst (attempt taskId j v) = Ok false) ->
  let out := runAutomationWith svc env attempt taskId w in
  fst out = Ok tt /\
  task_status taskId (snd out) = Some failed /\
  task_completedAt taskId (snd out) = Some (completed_now env) /\
  attempts_made taskId (trace (snd out)) =
    attempts_made taskId (trace w) ++ seq 1 MAX_RETRIES.
Proof.
  intros Hw Hfail out. subst out.
  destruct (runAutomationWith_unfold svc env attempt taskId w Hw)
    as (w1 & -> & Hw1 & _ & Ha1).
  destruct (retry_loop_exhausted svc env attempt attempt_moves_only taskId
              MAX_RETRIES 1 w1) as (w2 & E & Hs & Hc & Ha); [done| |].
  - intros j v Hj. apply fst_eq_run, Hfail. unfold MAX_RETRIES in *. lia.
  - rewrite Ha1 in Ha. by eapply after_finally.
Qed.

End Prescribed.

(** C4.  The retry loop of [runAutomation] on a task of the map.  If the
    attempts 1 to k-1 return [false] and attempt k returns [true], for a k
    from 1 to [MAX_RETRIES], the loop makes exactly the attempts 1 to k and
    leaves the task [completed] with [completedAt] set.  If the attempts 1
    to [MAX_RETRIES] all return [false], it makes exactly these attempts and
    leaves the task [failed] with [completedAt] set. *)
Theorem retry_loop_outcomes (svc : Service) (env : Env) (taskId : string) (w : World) :
  is_Some (tasks w !! taskId) ->
  let attempt n := attemptSignup svc (scenario env n) taskId n in
  let out := runAutomation svc env taskId w in
  (forall k : nat,
     (1 <= k <= MAX_RETRIES)%nat ->
     (forall j v, (1 <= j < k)%nat -> fst (attempt j v) = Ok false) ->
     (forall v, fst (attempt k v) = Ok true) ->
     fst out = Ok tt /\
     task_status taskId (snd out) = Some completed /\
     task_completedAt taskId (snd out) = Some (completed_now env) /\
     attempts_made taskId (trace (snd out)) =
       attempts_made taskId (trace w) ++ seq 1 k) /\
  ((forall j v, (1 <= j <= MAX_RETRIES)%nat -> fst (attempt j v) = Ok false) ->
   fst out = Ok tt /\
   task_status taskId (snd out) = Some failed /\
   task_completedAt taskId (snd out) = Some (completed_now env) /\
   attempts_made taskId (trace (snd out)) =
     attempts_made taskId (trace w) ++ seq 1 MAX_RETRIES).
Proof.
  intros Hw attempt out. split.
  - intros k Hk Hfail Hsucc.
    apply (runAutomationWith_success svc env
             (fun i n => attemptSignup svc (scenario env n) i n)); try done.
    intros i n. apply attemptSignup_moves.
  - intros Hfail.
    apply (runAutomationWith_exhausted svc env
             (fun i n => attemptSignup svc (scenario env n) i n)); try done.
    intros i n. apply attemptSignup_moves.
Qed.

(** ** What the whole service leaves alone *)

Global Instance keeps_identity_po taskId : PreOrder (keeps_identity taskId).
Proof.
  split; [by intros w|]. intros w1 w2 w3 H12 H23. unfold keeps_identity in *.
  by rewrite H23.
Qed.

Lemma steady_mono (R R' : World -> World -> Prop) {A} (m : M A) :
  (forall w w', R w w' -> R' w w') -> steady R m -> steady R' m.
Proof. intros H Hm w. apply H, Hm. Qed.

Lemma moves_keep_identity taskId w w' :
  attempt_moves w w' -> keeps_identity taskId w w'.
Proof.
  intros H. apply (moves_static taskId) in H. unfold keeps_identity.
  destruct (tasks w' !! taskId) as [t'|], (tasks w !! taskId) as [t|];
    simpl in *; try done.
  unfold static in H. unfold identity. congruence.
Qed.

Lemma keeps_identity_on_task taskId i f w :
  (forall t, identity (f t) = identity t) ->
  keeps_identity taskId w (on_task i f w).
Proof.
  intros Hf. unfold keeps_identity. simpl. rewrite lookup_alter.
  case_decide; [subst|done]. destruct (tasks w !! taskId); simpl; [|done].
  by rewrite Hf.
Qed.

Lemma keeps_identity_set_status taskId i s w :
  keeps_identity taskId w (set_status i s w).
Proof. unfold set_status. by apply (keeps_identity_on_task taskId i _ w). Qed.

Lemma keeps_identity_record taskId evs w : keeps_identity taskId w (record evs w).
Proof. done. Qed.

(** Decomposition for the code of the retry controller: its own writes are
    the leaves, the methods it shares with the attempts are attempt moves. *)
Ltac identity_leaf :=
  first
    [ apply keeps_identity_set_status
    | apply keeps_identity_record
    | apply keeps_identity_on_task; by intros [] ].

Ltac identity_step :=
  match goal with
  | |- PreOrder _ => typeclasses eauto
  | |- steady _ (ret _) => apply steady_ret
  | |- steady _ (throw _) => apply steady_throw
  | |- steady _ (gets _) => apply steady_gets
  | |- steady _ (bind _ _) => apply steady_bind; [| |intros ?; cbv beta]
  | |- steady _ (try_catch _ _) => apply steady_try_catch; [| |intros ?; cbv beta]
  | |- steady _ (try_finally _ _) => apply steady_try_finally; [| |intros ?]
  | |- steady _ (modify _) => apply steady_modify; intros ?
  | |- keeps_identity _ _ _ => identity_leaf
  | |- steady (keeps_identity ?i) (match ?x with _ => _ end) => destruct x
  | |- steady (keeps_identity ?i) _ =>
      apply (steady_mono attempt_moves); [apply moves_keep_identity|solve [moves]]
  end.

Section Identity.

Variable svc : Service.
Variable env : Env.
Variable attempt : string -> nat -> M bool.
Hypothesis attempt_moves_only :
  forall taskId n, steady attempt_moves (attempt taskId n).

Lemma retry_loop_identity taskId i rem n :
  steady (keeps_identity taskId) (retry_loop svc env attempt i rem n).
Proof.
  revert n. induction rem as [|rem IH]; intros n; simpl.
  - repeat identity_step.
  - apply steady_bind; [apply _| |intros _].
    { destruct (1 <? n)%nat; [|apply steady_ret; apply _].
      apply (steady_mono attempt_moves); [apply moves_keep_identity|].
      apply reset_for_retry_moves. }
    apply steady_bind; [apply _|repeat identity_step|intros _].
    apply steady_bind; [apply _| |intros [|]].
    + apply (steady_mono attempt_moves); [apply moves_keep_identity|].
      apply attempt_moves_only.
    + repeat identity_step.
    + apply IH.
Qed.

Lemma runAutomationWith_identity taskId i :
  steady (keeps_identity taskId) (runAutomationWith svc env attempt i).
Proof.
  unfold runAutomationWith.
  apply steady_bind; [apply _|apply steady_gets; apply _|intros [t|]];
    [|apply steady_ret; apply _].
  do 4 (apply steady_bind; [apply _|repeat identity_step|intros _]).
  apply steady_try_finally; [apply _|apply retry_loop_identity|].
  intros w. apply keeps_identity_record.
Qed.

Lemma fatal_error_identity taskId i e :
  steady (keeps_identity taskId) (fatal_error env i e).
Proof. unfold fatal_error. repeat identity_step. Qed.

(** The task that [createReplitAccount] has put in the map keeps its
    identity to the end. *)
Lemma created_task_identity email w :
  let taskId := nanoid env in
  let out := createReplitAccountWith svc env attempt email w in
  fst out = Ok taskId /\
  identity <$> tasks (snd out) !! taskId =
    Some (identity (new_task taskId email (created_now env))).
Proof.
  intros taskId out. subst out. unfold createReplitAccountWith. fold taskId.
  rewrite bind_modify. set (w0 := with_tasks _ w).
  assert (H0 : identity <$> tasks w0 !! taskId =
               Some (identity (new_task taskId email (created_now env)))).
  { subst w0. simpl. by rewrite lookup_insert_eq. }
  set (rest := bind _ _).
  assert (Hrest : steady (keeps_identity taskId) rest).
  { subst rest.
    do 3 (apply steady_bind; [apply _|repeat identity_step|intros _]).
    apply steady_bind; [apply _| |intros _; apply steady_ret; apply _].
    apply steady_try_catch; [apply _|apply runAutomationWith_identity|].
    intros e. apply fatal_error_identity. }
  split.
  - subst rest. clear Hrest.
    repeat (rewrite bind_safe; [|solve [unfold fatal_error; safety]]).
    reflexivity.
  - rewrite <- H0. apply Hrest.
Qed.

End Identity.

(** C10.  A task created through [createReplitAccount] is stored under the
    identifier the call returns; its password is the email address, the very
    same string, and it has exactly the five steps load, form, submit,
    redirect, email_verify in this order.  This holds when the task is
    created and still holds when the service is done with it. *)
Theorem created_task_password_and_steps (svc : Service) (env : Env)
    (email : string) (w : World) :
  let out := createReplitAccount svc env email w in
  let created := new_task (nanoid env) email (created_now env) in
  Task.password created = Some email /\
  map Step.id (Task.steps created) =
    ["load"; "form"; "submit"; "redirect"; "email_verify"] /\
  fst out = Ok (nanoid env) /\
  exists t, tasks (snd out) !! nanoid env = Some t /\
    Task.email t = email /\
    Task.password t = Some email /\
    map Step.id (Task.steps t) =
      ["load"; "form"; "submit"; "redirect"; "email_verify"].
Proof.
  intros out created. split; [done|]. split; [done|].
  destruct (created_task_identity svc env
              (fun i n => attemptSignup svc (scenario env n) i n)
              (fun i n => attemptSignup_moves svc (scenario env n) i n) email w)
    as [Hr Hi].
  split; [exact Hr|]. cbv zeta in Hi. subst out.
  destruct (tasks _ !! nanoid env) as [t|]; [|discriminate Hi].
  exists t. split; [done|]. simpl in Hi. injection Hi as Hid Hp He Hpw Hc Hs.
  repeat split; try done.
  assert (Hm : map Step.id (Task.steps t) = map fst (step_names (Task.steps t))).
  { unfold step_names. rewrite map_map. by apply map_ext. }
  rewrite Hm, Hs. reflexivity.
Qed.

(** ** The reset before a retry *)

Lemma random_int_range u n : 0 < n -> 0 <= random_int u n < n.
Proof.
  intros Hn. unfold random_int.
  assert (H := Z.mod_pos_bound u (2 ^ 53) ltac:(lia)).
  split.
  - apply Z.div_pos; [|lia]. nia.
  - apply Z.div_lt_upper_bound; [lia|]. nia.
Qed.

Lemma sleeps_notifications taskId w : sleeps (notifications taskId w) = [].
Proof.
  unfold notifications. destruct (tasks w !! taskId); [|done].
  by induction (default [] (updateCallbacks w !! taskId)).
Qed.

Lemma Forall_kept (l : list string) :
  Forall (fun x => kept_debug_line x = true) (filter kept_debug_line l).
Proof.
  apply Forall_forall. intros x [Hx _]%list_elem_of_filter. by apply Is_true_true.
Qed.

(** C8, as the code has it.  The reset that precedes an attempt k > 1 never
    throws; it sets every [failed] step back to [pending] and leaves every
    other step as it is, empties [errorMessages] and [screenshots], keeps of
    [debugLogs] (to which debug mode has just added the two lines of the
    retry) the lines of the whitelist only, sleeps once, for 5000 to 12999
    milliseconds, and changes nothing else of the task: id, email, password,
    logs, createdAt, provider, status and completedAt are as before. *)
Theorem retry_reset (svc : Service) (env : Env) (taskId : string) (n : nat)
    (w : World) (t : Task.t) :
  tasks w !! taskId = Some t ->
  let out := reset_for_retry svc env taskId n w in
  let delay := random_int (backoff_draw env n) 8000 + 5000 in
  fst out = Ok tt /\
  5000 <= delay < 13000 /\
  sleeps (trace (snd out)) = sleeps (trace w) ++ [delay] /\
  exists t', tasks (snd out) !! taskId = Some t' /\
    Task.steps t' = map reset_failed_step (Task.steps t) /\
    Task.errorMessages t' = [] /\
    Task.screenshots t' = [] /\
    Task.debugLogs t' =
      filter kept_debug_line (Task.debugLogs t ++ retry_debug_lines svc env n) /\
    Forall (fun l => kept_debug_line l = true) (Task.debugLogs t') /\
    Task.id t' = Task.id t /\ Task.email t' = Task.email t /\
    Task.password t' = Task.password t /\ Task.logs t' = Task.logs t /\
    Task.createdAt t' = Task.createdAt t /\ Task.provider t' = Task.provider t /\
    Task.status t' = Task.status t /\ Task.completedAt t' = Task.completedAt t.
Proof.
  intros Ht out delay.
  split.
  { destruct (reset_for_retry_safe svc env taskId n w) as [[] H]. exact H. }
  split.
  { pose proof (random_int_range (backoff_draw env n) 8000 ltac:(lia)).
    subst delay. lia. }
  subst out. unfold reset_for_retry, retry_debug_lines, addDebugLog, notifyUpdate, sleep.
  fold delay.
  destruct (debugMode svc); unfold bind, modify, ret; simpl snd; simpl trace;
    simpl tasks.
  all: split; [unfold sleeps; rewrite !omap_app; fold sleeps;
               rewrite sleeps_notifications; simpl; by rewrite app_nil_r|].
  all: rewrite !lookup_alter_eq, Ht; simpl; eexists; split; [reflexivity|]; simpl.
  all: destruct t; simpl; repeat split; try done.
  all: try (by rewrite app_nil_r).
  all: try apply Forall_kept.
  unfold push. by rewrite <- app_assoc.
Qed.

(** The reset on the task of the example. *)
Lemma retry_reset_witness :
  exists t,
    tasks Example.created !! "task-1" = Some t /\
    fst (reset_for_retry Example.debugging (Example.env_of (fun _ => Example.crash))
           "task-1" 2 Example.created) = Ok tt /\
    5000 <= random_int 0 8000 + 5000 < 13000.
Proof.
  eexists. split; [reflexivity|].
  destruct (retry_reset Example.debugging (Example.env_of (fun _ => Example.crash))
              "task-1" 2 Example.created _ eq_refl) as (H1 & H2 & _).
  split; [exact H1|exact H2].
Defined.

(** C8 as the claim has it fails: the steps that are not [failed] are not
    reset.  After a first attempt that the provider refused (address taken),
    [load] and [form] are [completed] and [submit] is [failed]; the reset
    leaves [load] and [form] [completed]. *)
Lemma retry_reset_keeps_completed_steps :
  let env := Example.env_of (fun _ => Example.email_taken) in
  let w1 := snd (attemptSignup Example.no_solver Example.email_taken "task-1" 1
                   Example.created) in
  let w2 := snd (reset_for_retry Example.no_solver env "task-1" 2 w1) in
  (Task.steps <$> tasks w1 !! "task-1") ≫= (Some ∘ map Step.status) =
    Some [completed; completed; failed; pending; pending] /\
  (Task.steps <$> tasks w2 !! "task-1") ≫= (Some ∘ map Step.status) =
    Some [completed; completed; pending; pending; pending] /\
  ~ (forall s, (Task.steps <$> tasks w2 !! "task-1") = Some s ->
               Forall (fun x => Step.status x = pending) s).
Proof.
  intros env w1 w2.
  assert (H2 : (Task.steps <$> tasks w2 !! "task-1") ≫= (Some ∘ map Step.status) =
               Some [completed; completed; pending; pending; pending])
    by (vm_compute; reflexivity).
  split; [vm_compute; reflexivity|]. split; [exact H2|].
  intros H. destruct (Task.steps <$> tasks w2 !! "task-1") as [s|]; [|done].
  specialize (H s eq_refl). simpl in H2. injection H2 as H2.
  destruct s as [|x s]; [done|]. inversion H as [|? ? Hx _]; subst.
  simpl in H2. injection H2 as Hx' _. congruence.
Qed.

(** ** Who is told about a mutation *)






Global Instance notifying_po taskId cbs : PreOrder (notifying taskId cbs).
Proof.
  split; [intros w H; exact H|]. intros w1 w2 w3 H12 H23 H. by apply H23, H12.
Qed.







Section Notifying.

Variable svc : Service.
Variable env : Env.
Variable attempt : string -> nat -> M bool.
Hypothesis attempt_moves_only :
  forall taskId n, steady attempt_moves (attempt taskId n).
Variable taskId : string.
Variable cbs : list Callback.









End Notifying.





(** ** Logging and waiting *)

Global Instance logging_po : PreOrder logging.
Proof. unfold logging. apply _. Qed.

Create HintDb logging discriminated.

Lemma logging_task taskId f w : task_inert f -> logging w (on_task taskId f w).
Proof. intros. apply rtc_once. by constructor. Qed.

Lemma logging_record evs w :
  forallb plain_event evs = true -> logging w (record evs w).
Proof. intros. apply rtc_once. by constructor. Qed.

Lemma notifications_plain taskId w :
  forallb plain_event (notifications taskId w) = true.
Proof.
  unfold notifications. destruct (tasks w !! taskId); [|done].
  by induction (default [] (updateCallbacks w !! taskId)).
Qed.

Global Hint Resolve task_inert_push_log task_inert_push_debugLog
  task_inert_push_screenshot task_inert_push_errorMessage task_inert_set_step
  logging_task logging_record notifications_plain : logging.

Ltac logs_step :=
  first
    [ solve [auto 1 with logging nocore]
    | match goal with
      | |- PreOrder _ => typeclasses eauto
      | |- steady _ (ret _) => apply steady_ret
      | |- steady _ (throw _) => apply steady_throw
      | |- steady _ (gets _) => apply steady_gets
      | |- steady _ (await _) => apply steady_await
      | |- steady _ (bind _ _) => apply steady_bind; [| |intros ?; cbv beta]
      | |- steady _ (try_catch _ _) => apply steady_try_catch; [| |intros ?; cbv beta]
      | |- steady _ (modify _) => apply steady_modify; intros ?
      | |- steady _ (match ?x with _ => _ end) => destruct x
      end ].

Ltac logs := repeat logs_step; eauto with logging.

Section Logging.

Variable svc : Service.
Variable sc : Scenario.

Lemma notifyUpdate_logging taskId : steady logging (notifyUpdate taskId).
Proof. unfold notifyUpdate. logs. Qed.

Hint Resolve notifyUpdate_logging : logging.

Lemma addLog_logging taskId l : steady logging (addLog taskId l).
Proof. unfold addLog. logs. Qed.

Lemma addDebugLog_logging taskId l : steady logging (addDebugLog svc taskId l).
Proof. unfold addDebugLog. logs. Qed.

Lemma updateStep_logging taskId stepId s l :
  steady logging (updateStep taskId stepId s l).
Proof. unfold updateStep. logs. Qed.

Lemma sleep_logging ms : steady logging (sleep ms).
Proof. unfold sleep. logs. Qed.

Hint Resolve addLog_logging addDebugLog_logging updateStep_logging
  sleep_logging : logging.

Lemma poll_logging taskId budget attempts :
  steady logging (poll svc sc taskId budget attempts).
Proof.
  revert attempts. induction budget as [|b IH]; intros attempts; simpl; logs.
Qed.

Lemma report_other_errors_logging taskId content patterns detected :
  steady logging (report_other_errors taskId content patterns detected).
Proof.
  revert detected. induction patterns as [|[p m] rest IH]; intros detected; simpl;
    logs.
Qed.

Lemma report_alerts_logging taskId texts :
  steady logging (report_alerts taskId texts).
Proof. induction texts as [|t rest IH]; simpl; logs. Qed.

End Logging.

Global Hint Resolve notifyUpdate_logging addLog_logging addDebugLog_logging
  updateStep_logging sleep_logging poll_logging report_other_errors_logging
  report_alerts_logging : logging.

(** What logging leaves as it is. *)
Lemma log_step_frame w w' :
  log_step w w' ->
  browser w' = browser w /\ context w' = context w /\ page w' = page w /\
  cookieFiles w' = cookieFiles w /\ replit_accounts w' = replit_accounts w /\
  cookies_table w' = cookies_table w /\ updateCallbacks w' = updateCallbacks w /\
  accounts_saved (trace w') = accounts_saved (trace w) /\
  cookie_rows_saved (trace w') = cookie_rows_saved (trace w) /\
  closes (trace w') = closes (trace w) /\
  (forall i, cookie_loads i (trace w') = cookie_loads i (trace w)) /\
  (forall i, cookie_saves i (trace w') = cookie_saves i (trace w)) /\
  (forall i, task_email i w' = task_email i w) /\
  (forall i, task_password i w' = task_password i w).
Proof.
  assert (Hq : forall {B} (f : Event -> option B) evs,
    (forall e, plain_event e = true -> f e = None) ->
    forallb plain_event evs = true -> omap f evs = []).
  { intros B f evs Hf. induction evs as [|e evs IH]; [done|]. simpl.
    intros [He Hevs]%andb_prop. rewrite (Hf e He). by apply IH. }
  destruct 1 as [i f w Hf|evs w Hevs]; simpl.
  { repeat split; try done; intros j; unfold task_email, task_password; simpl;
      rewrite lookup_alter; case_decide; subst; try done;
      destruct (tasks w !! j) as [t|]; simpl; try done;
      destruct (Hf t) as (?&?&?&?&?); congruence. }
  repeat split; try done; intros;
    unfold accounts_saved, cookie_rows_saved, closes, cookie_loads, cookie_saves;
    rewrite omap_app, (Hq _ _ evs), app_nil_r; try done; intros e; by destruct e.
Qed.

Lemma logging_frame w w' :
  logging w w' ->
  browser w' = browser w /\ context w' = context w /\ page w' = page w /\
  cookieFiles w' = cookieFiles w /\ replit_accounts w' = replit_accounts w /\
  cookies_table w' = cookies_table w /\ updateCallbacks w' = updateCallbacks w /\
  accounts_saved (trace w') = accounts_saved (trace w) /\
  cookie_rows_saved (trace w') = cookie_rows_saved (trace w) /\
  closes (trace w') = closes (trace w) /\
  (forall i, cookie_loads i (trace w') = cookie_loads i (trace w)) /\
  (forall i, cookie_saves i (trace w') = cookie_saves i (trace w)) /\
  (forall i, task_email i w' = task_email i w) /\
  (forall i, task_password i w' = task_password i w).
Proof.
  induction 1 as [|x y z Hxy _ IH]; [by repeat split|].
  destruct (log_step_frame _ _ Hxy) as (?&?&?&?&?&?&?&?&?&?&Hl&Hs&He&Hp).
  destruct IH as (?&?&?&?&?&?&?&?&?&?&Hl'&Hs'&He'&Hp').
  repeat split; try congruence; intros i;
    by rewrite ?Hl', ?Hs', ?He', ?Hp', ?Hl, ?Hs, ?He, ?Hp.
Qed.

Lemma logging_moves w w' : logging w w' -> attempt_moves w w'.
Proof.
  induction 1 as [|x y z Hxy _ IH]; [reflexivity|].
  etransitivity; [|exact IH]. apply rtc_once.
  destruct Hxy as [i f w Hf|evs w Hevs]; constructor; [done|].
  clear -Hevs. induction evs as [|e evs IH]; [done|]. simpl in *.
  apply andb_prop in Hevs as [He Hevs]. rewrite (IH Hevs), andb_true_r.
  by destruct e.
Qed.

(** ** Running an attempt along a prescribed course *)

Lemma loadCookies_run sc taskId w :
  loadCookies sc taskId w =
  (Ok (cookies_loaded sc taskId w),
   record [EvLoadCookies taskId (bool_decide (is_Some (cookieFiles w !! taskId)))] w).
Proof.
  unfold loadCookies, cookies_loaded, try_catch, bind, gets, modify. simpl.
  destruct (cookieFiles w !! taskId); simpl; [|done].
  by destruct (addCookies sc) as [[]|].
Qed.

Lemma bind_run {A B} (m : M A) (k : A -> M B) w a w' :
  m w = (Ok a, w') -> bind m k w = k a w'.
Proof. intros E. unfold bind. by rewrite E. Qed.

Lemma logged_run {A} (m : M A) w :
  safe m -> steady logging m -> exists a w', m w = (Ok a, w') /\ logging w w'.
Proof.
  intros Hsafe Hs. destruct (Hsafe w) as [a Ha]. specialize (Hs w).
  destruct (m w) as [r w']; simpl in *; subst r. by exists a, w'.
Qed.

Lemma bind_assoc {A B C} (m : M A) (k1 : A -> M B) (k2 : B -> M C) w :
  bind (bind m k1) k2 w = bind m (fun a => bind (k1 a) k2) w.
Proof. unfold bind. by destruct (m w) as [[a|e] w1]. Qed.

Ltac run_logged m k w :=
  let a := fresh "a" in let w' := fresh "w" in
  let E := fresh "E" in let H := fresh "Hlog" in
  destruct (logged_run m w) as (a & w' & E & H);
  [solve [safety]|solve [logs]|];
  rewrite (bind_run m k w a w' E); cbv beta; clear E;
  lazymatch type of a with unit => destruct a | _ => idtac end.

Ltac run_step :=
  cbv beta iota;
  lazymatch goal with
  | |- context [bind (modify (on_task ?i ?f)) ?k ?w] =>
      run_logged (modify (on_task i f)) k w
  | |- context [bind (modify ?f) ?k ?w] =>
      let w' := fresh "w" in let E := fresh "Ew" in
      change (bind (modify f) k w) with (k tt (f w)); cbv beta;
      remember (f w) as w' eqn:E
  | |- context [bind (ret ?a) ?k ?w] =>
      change (bind (ret a) k w) with (k a w); cbv beta
  | |- context [bind (await (Resolves ?a)) ?k ?w] =>
      change (bind (await (Resolves a)) k w) with (k a w); cbv beta
  | |- context [bind (gets ?f) ?k ?w] =>
      change (bind (gets f) k w) with (k (f w) w); cbv beta
  | |- context [@bind ?A ?B (throw ?e) ?k ?w] =>
      change (@bind A B (throw e) k w) with (@Throw B e, w)
  | |- context [@bind ?A ?B (await (Rejects ?e)) ?k ?w] =>
      change (@bind A B (await (Rejects e)) k w) with (@Throw B e, w)
  | |- context [bind (bind ?m ?k1) ?k2 ?w] =>
      rewrite (bind_assoc m k1 k2 w); cbv beta
  | |- context [bind (await ?o) _ _] => destruct o as [?|?] eqn:?
  | |- context [bind (match ?x with _ => _ end) _ _] => destruct x
  | |- context [bind (loadCookies ?sc ?i) ?k ?w] =>
      let w' := fresh "w" in let E := fresh "Ew" in
      rewrite (bind_run _ k w _ _ (loadCookies_run sc i w)); cbv beta;
      remember (record [EvLoadCookies i (bool_decide (is_Some (cookieFiles w !! i)))] w)
        as w' eqn:E
  | |- context [bind ?m ?k ?w] => run_logged m k w
  end.

Lemma closes_app l l' : closes (l ++ l') = closes l ++ closes l'.
Proof. apply omap_app. Qed.
Lemma accounts_saved_app l l' : accounts_saved (l ++ l') = accounts_saved l ++ accounts_saved l'.
Proof. apply omap_app. Qed.
Lemma cookie_rows_saved_app l l' :
  cookie_rows_saved (l ++ l') = cookie_rows_saved l ++ cookie_rows_saved l'.
Proof. apply omap_app. Qed.
Lemma cookie_loads_app i l l' : cookie_loads i (l ++ l') = cookie_loads i l ++ cookie_loads i l'.
Proof. apply omap_app. Qed.
Lemma cookie_saves_app i l l' : cookie_saves i (l ++ l') = cookie_saves i l ++ cookie_saves i l'.
Proof. apply omap_app. Qed.

(** Everything known about the worlds met on the way. *)
Ltac frames i :=
  repeat match goal with
    | H : logging _ _ |- _ =>
        apply logging_frame in H; destruct H as (?&?&?&?&?&?&?&?&?&?&?&?&?&?)
    | H : offline _ _ _ |- _ => destruct H as (?&?&?&?&?)
    end;
  repeat match goal with H : forall i : string, _ |- _ => specialize (H i) end;
  subst;
  unfold task_email, task_password in *;
  cbn [browser context page cookieFiles replit_accounts cookies_table
       updateCallbacks trace tasks with_handles on_task with_tasks record
       with_cookieFiles with_database] in *;
  rewrite ?closes_app, ?accounts_saved_app, ?cookie_rows_saved_app,
    ?cookie_loads_app, ?cookie_saves_app in *;
  simpl in *; rewrite ?String.eqb_refl, ?app_nil_r in *; simpl in *.

Ltac chase :=
  repeat match goal with
    | H : ?l = _ |- context [?l] => rewrite H
    end;
  rewrite <- ?app_assoc;
  try reflexivity.

Ltac inv_res H o :=
  let E := fresh "E" in
  destruct o as [?|?] eqn:E; simpl in H; [|discriminate H].
Ltac inv_found H o :=
  let E := fresh "E" in
  destruct o as [[|]|?] eqn:E; simpl in H; [|discriminate H|discriminate H].

Ltac invert_submission H sc :=
  unfold submission in H;
  inv_res H (launch sc); inv_res H (newContext sc); inv_res H (newPage sc);
  inv_res H (goto_signup sc); inv_res H (humanize sc); inv_res H (screenshot1 sc);
  inv_res H (emailPasswordButton sc);
  match type of H with context [if ?b then _ else _] => destruct b; simpl in H end;
  [inv_res H (emailPasswordClick sc)|];
  inv_found H (emailInput sc); inv_res H (typeEmail sc);
  inv_found H (passwordInput sc); inv_res H (typePassword sc);
  inv_res H (beforeSubmit sc); inv_found H (createButton sc);
  inv_res H (clickCreate sc); inv_res H (screenshot2 sc);
  inv_res H (pageContent sc);
  injection H as H;
  repeat match goal with u : unit |- _ => destruct u end.

Lemma submit_form_run svc sc taskId n w content :
  submission sc = Some content ->
  exists w', submit_form svc sc taskId n w = (Ok content, w') /\
    browser w' = Open /\ context w' = Open /\ page w' = Open /\
    cookieFiles w' = cookieFiles w /\
    accounts_saved (trace w') = accounts_saved (trace w) /\
    cookie_rows_saved (trace w') = cookie_rows_saved (trace w) /\
    closes (trace w') = closes (trace w) /\
    cookie_loads taskId (trace w') =
      cookie_loads taskId (trace w) ++ [bool_decide (is_Some (cookieFiles w !! taskId))] /\
    cookie_saves taskId (trace w') = cookie_saves taskId (trace w) /\
    task_email taskId w' = task_email taskId w /\
    task_password taskId w' = task_password taskId w.
Proof.
  intros H. unfold submit_form.
  invert_submission H sc; subst content.
  all: repeat run_step.
  all: eexists; (split; [reflexivity|]).
  all: frames taskId.
  all: repeat split; chase.
Qed.

(** ** The gateway and the verification *)

Ltac run_call m w :=
  let a := fresh "a" in let w' := fresh "w" in
  let E := fresh "E" in let H := fresh "Hlog" in
  destruct (logged_run m w) as (a & w' & E & H);
  [solve [safety]|solve [logs]|];
  rewrite E; clear E; cbv beta iota;
  lazymatch type of a with unit => destruct a | _ => idtac end.

(** The last call of a block. *)
Ltac run_tail :=
  cbv beta iota;
  lazymatch goal with
  | |- context [addDebugLog ?s ?i ?l ?w] => run_call (addDebugLog s i l) w
  | |- context [addLog ?i ?l ?w] => run_call (addLog i l) w
  | |- context [updateStep ?i ?st ?s ?l ?w] => run_call (updateStep i st s l) w
  | |- context [notifyUpdate ?i ?w] => run_call (notifyUpdate i) w
  | |- context [sleep ?ms ?w] => run_call (sleep ms) w
  | |- context [@ret ?A ?a ?w] => change (@ret A a w) with (Ok a, w)
  | |- context [@throw ?A ?e ?w] => change (@throw A e w) with (@Throw A e, w)
  | |- context [modify ?f ?w] =>
      let w' := fresh "w" in let E := fresh "Ew" in
      change (modify f w) with (Ok tt, f w); remember (f w) as w' eqn:E
  | |- context [@await ?A (Resolves ?a) ?w] =>
      change (@await A (Resolves a) w) with (Ok a, w)
  | |- context [@await ?A (Rejects ?e) ?w] =>
      change (@await A (Rejects e) w) with (@Throw A e, w)
  end.

Ltac run := repeat first [run_step | run_tail]; cbv beta iota.

(** What one call of the gateway does to the world. *)
Lemma saveAccountToDatabase_run svc sc taskId cookies verified w :
  exists w',
    saveAccountToDatabase svc sc taskId cookies verified w = (Ok tt, w') /\
    accounts_saved (trace w') =
      accounts_saved (trace w) ++ [account_row sc taskId w verified] /\
    browser w' = browser w /\ context w' = context w /\ page w' = page w /\
    cookieFiles w' = cookieFiles w /\
    closes (trace w') = closes (trace w) /\
    cookie_loads taskId (trace w') = cookie_loads taskId (trace w) /\
    cookie_saves taskId (trace w') = cookie_saves taskId (trace w) /\
    task_email taskId w' = task_email taskId w /\
    task_password taskId w' = task_password taskId w /\
    cookie_rows_saved (trace w') =
      cookie_rows_saved (trace w) ++ gateway_cookie_rows sc cookies.
Proof.
  unfold saveAccountToDatabase, try_catch, account_row, gateway_cookie_rows.
  run.
  all: try match goal with r : InsertReply |- _ => destruct r end.
  all: try destruct cookies as [|c cookies]; run.
  all: try match goal with H : insertCookies _ = Resolves ?b |- _ => destruct b end; run.
  all: eexists; (split; [reflexivity|]); frames taskId.
  all: repeat split; chase.
Qed.

Ltac run_save :=
  lazymatch goal with
  | |- context [bind (saveAccountToDatabase ?s ?c ?i ?ck ?v) ?k ?w] =>
      let w' := fresh "w" in let E := fresh "E" in
      destruct (saveAccountToDatabase_run s c i ck v w)
        as (w' & E & ?&?&?&?&?&?&?&?&?&?&?);
      rewrite (bind_run _ k w _ _ E); clear E; cbv beta
  end.

Lemma poll_run svc sc taskId budget : forall attempts w,
  exists w', poll svc sc taskId budget attempts w =
               (Ok (first_link sc budget attempts), w') /\ logging w w'.
Proof.
  induction budget as [|budget IH]; intros attempts w; simpl.
  - by exists w.
  - destruct (scan_messages _ _) as [link|]; [by exists w|].
    run_step. run_step. destruct (IH (S attempts) w1) as (w' & E & Hw').
    exists w'. split; [done|]. do 2 (etransitivity; [eassumption|]). done.
Qed.

Lemma safe_await_resolved {A} (a : A) : safe (await (Resolves a)).
Proof. intros w. by exists a. Qed.

Lemma verifyEmail_safe svc sc taskId cookies :
  closeContextCatch sc = Resolves tt -> closeBrowserCatch sc = Resolves tt ->
  safe (verifyEmail svc sc taskId cookies).
Proof.
  intros H1 H2. unfold verifyEmail. apply safe_try_catch. intros e.
  unfold close_in_verify. rewrite H1, H2.
  repeat first [apply safe_await_resolved | safe_step].
Qed.

Lemma verifyEmail_run svc sc taskId cookies w :
  closeContext sc = Resolves tt -> closeBrowser sc = Resolves tt ->
  closeContextCatch sc = Resolves tt -> closeBrowserCatch sc = Resolves tt ->
  exists w',
    verifyEmail svc sc taskId cookies w = (Ok tt, w') /\
    accounts_saved (trace w') =
      accounts_saved (trace w) ++ [account_row sc taskId w (verification_succeeds sc)] /\
    cookieFiles w' = cookieFiles w /\
    cookie_loads taskId (trace w') = cookie_loads taskId (trace w) /\
    cookie_saves taskId (trace w') = cookie_saves taskId (trace w) /\
    browser w' = Closed /\ context w' = Closed /\ page w' = page w /\
    closes (trace w') = closes (trace w) ++ [TheContext; TheBrowser] /\
    cookie_rows_saved (trace w') =
      cookie_rows_saved (trace w) ++ gateway_cookie_rows sc (cookies_handed sc cookies) /\
    task_email taskId w' = task_email taskId w /\
    task_password taskId w' = task_password taskId w.
Proof.
  intros H1 H2 H3 H4.
  unfold verifyEmail, try_catch, close_in_verify, verification_succeeds, account_row,
    cookies_handed.
  rewrite H1, H2, H3, H4.
  run.
  destruct (poll_run svc sc taskId maxAttempts 0 w2) as (w3 & E & Hw3).
  rewrite (bind_run _ _ _ _ _ E). clear E. cbv beta.
  destruct (first_link sc maxAttempts 0) as [link|]; run.
  all: repeat (run_save; run).
  all: eexists; (split; [reflexivity|]); unfold account_row in *; frames taskId.
  all: repeat split; chase.
Qed.


(** ** The traffic with the account store *)

Global Instance offline_po taskId : PreOrder (offline taskId).
Proof.
  split; [by intros w|]. intros w1 w2 w3 (?&?&?&?&?) (?&?&?&?&?). unfold offline.
  repeat split; congruence.
Qed.

Lemma logging_offline taskId w w' : logging w w' -> offline taskId w w'.
Proof.
  intros H. destruct (logging_frame _ _ H) as (?&?&?&?&?&?&?&?&?&?&?&?&He&Hp).
  by repeat split.
Qed.

Lemma offline_task taskId i f w : task_inert f -> offline taskId w (on_task i f w).
Proof. intros Hf. apply logging_offline, logging_task, Hf. Qed.

Lemma offline_record taskId evs w :
  accounts_saved evs = [] -> cookie_rows_saved evs = [] ->
  cookie_loads taskId evs = [] ->
  offline taskId w (record evs w).
Proof.
  intros H H' H''. repeat split; try done; simpl.
  - by rewrite accounts_saved_app, H, app_nil_r.
  - by rewrite cookie_rows_saved_app, H', app_nil_r.
  - by rewrite cookie_loads_app, H'', app_nil_r.
Qed.

Lemma offline_on_task taskId i f w :
  (forall t, Task.email (f t) = Task.email t) ->
  (forall t, Task.password (f t) = Task.password t) ->
  offline taskId w (on_task i f w).
Proof.
  intros He Hp. unfold offline, task_email, task_password. simpl.
  repeat split; try done; rewrite lookup_alter; case_decide; subst; try done;
    destruct (tasks w !! taskId) as [t|]; simpl; by rewrite ?He, ?Hp.
Qed.

Lemma offline_set_status taskId i s w : offline taskId w (set_status i s w).
Proof.
  unfold set_status. transitivity (on_task i (Task.with_status s) w).
  - apply offline_on_task; by intros [].
  - by apply offline_record.
Qed.

Lemma offline_handles taskId b c p w : offline taskId w (with_handles b c p w).
Proof. done. Qed.

Lemma offline_cookieFiles taskId f w : offline taskId w (with_cookieFiles f w).
Proof. done. Qed.

Ltac offline_leaf :=
  first
    [ apply offline_handles
    | apply offline_cookieFiles
    | apply offline_record; reflexivity
    | apply offline_task; solve [auto with logging]
    | apply offline_set_status
    | apply offline_on_task; intros []; reflexivity
    | etransitivity; [apply offline_handles|apply offline_record; reflexivity]
    | etransitivity; [apply offline_cookieFiles|apply offline_record; reflexivity] ].

Ltac offline_step :=
  match goal with
  | |- PreOrder _ => typeclasses eauto
  | |- steady _ (ret _) => apply steady_ret
  | |- steady _ (throw _) => apply steady_throw
  | |- steady _ (gets _) => apply steady_gets
  | |- steady _ (await _) => apply steady_await
  | |- steady _ (bind _ _) => apply steady_bind; [| |intros ?; cbv beta]
  | |- steady _ (try_catch _ _) => apply steady_try_catch; [| |intros ?; cbv beta]
  | |- steady _ (modify _) => apply steady_modify; intros ?; offline_leaf
  | |- steady (offline _) (match ?x with _ => _ end) => destruct x
  | |- steady (offline ?i) _ =>
      first [ solve [auto 1 with offline nocore]
            | apply (steady_mono logging); [apply logging_offline|solve [logs]] ]
  end.

Ltac off := repeat offline_step.

Create HintDb offline discriminated.

Section Offline.
Variable svc : Service.
Variable sc : Scenario.
Variable taskId : string.

Lemma close_all_offline : steady (offline taskId) close_all.
Proof.
  unfold close_all. apply steady_modify. intros w.
  etransitivity; [apply offline_handles|apply offline_record].
  all: by destruct (browser w), (context w), (page w).
Qed.

Lemma saveCookies_offline i : steady (offline taskId) (saveCookies sc i).
Proof. unfold saveCookies. off. Qed.

Lemma solveCaptcha_offline i : steady (offline taskId) (solveCaptcha svc sc i).
Proof. unfold solveCaptcha. off. Qed.

Lemma injectCaptchaSolution_offline i :
  steady (offline taskId) (injectCaptchaSolution svc sc i).
Proof. unfold injectCaptchaSolution. off. Qed.

End Offline.

Global Hint Resolve close_all_offline saveCookies_offline
  solveCaptcha_offline injectCaptchaSolution_offline : offline.

Lemma offline_run {A} (m : M A) i w :
  safe m -> steady (offline i) m -> exists a w', m w = (Ok a, w') /\ offline i w w'.
Proof.
  intros Hsafe Hs. destruct (Hsafe w) as [a Ha]. specialize (Hs w).
  destruct (m w) as [r w']; simpl in *; subst r. by exists a, w'.
Qed.

(** A step of a run for code that only is known to stay offline. *)
Ltac run_off i :=
  cbv beta iota;
  lazymatch goal with
  | |- context [bind ?m ?k ?w] =>
      let a := fresh "a" in let w' := fresh "w" in
      let E := fresh "E" in let H := fresh "Hoff" in
      destruct (offline_run m i w) as (a & w' & E & H);
      [solve [safety]|solve [off]|];
      rewrite (bind_run m k w a w' E); cbv beta; clear E;
      lazymatch type of a with unit => destruct a | _ => idtac end
  end.

Ltac run_verify :=
  lazymatch goal with
  | |- context [bind (verifyEmail ?s ?c ?i ?ck) ?k ?w] =>
      let w' := fresh "w" in let E := fresh "E" in
      destruct (verifyEmail_run s c i ck w) as (w' & E & ?&?&?&?&?&?&?&?&?&?&?);
      [assumption|assumption|assumption|assumption|];
      rewrite (bind_run _ k w _ _ E); clear E; cbv beta
  end.

Lemma report_other_errors_run taskId content patterns : forall detected w,
  exists w',
    report_other_errors taskId content patterns detected w =
      (Ok (detected || existsb (fun p => JsString.test_ci (fst p) content) patterns), w') /\
    logging w w'.
Proof.
  induction patterns as [|[pattern message] rest IH]; intros detected w; simpl.
  - exists w. by rewrite orb_false_r.
  - destruct (JsString.test_ci pattern content); simpl.
    + run_step. run_step. run_step.
      destruct (IH true w2) as (w' & E & Hw'). exists w'. rewrite E.
      rewrite orb_true_r. split; [done|].
      do 3 (etransitivity; [eassumption|]). done.
    + apply IH.
Qed.

Lemma report_alerts_safe taskId texts : safe (report_alerts taskId texts).
Proof.
  induction texts as [|text rest IH]; simpl; [apply safe_ret|].
  destruct (truthy _); [|exact IH]. safety.
Qed.
Global Hint Resolve report_alerts_safe : safe.

Ltac run_all i :=
  repeat first [run_step | run_verify | run_save | run_off i | run_tail];
  cbv beta iota.

Lemma classify_gateway svc sc taskId content w :
  closeContext sc = Resolves tt -> closeBrowser sc = Resolves tt ->
  closeContextCatch sc = Resolves tt -> closeBrowserCatch sc = Resolves tt ->
  exists r w',
    classify svc sc taskId content w = (r, w') /\
    accounts_saved (trace w') =
      accounts_saved (trace w) ++ gateway_calls sc taskId w r /\
    cookie_rows_saved (trace w') =
      cookie_rows_saved (trace w) ++ gateway_cookies sc r /\
    task_email taskId w' = task_email taskId w /\
    task_password taskId w' = task_password taskId w /\
    cookie_loads taskId (trace w') = cookie_loads taskId (trace w).
Proof.
  intros H1 H2 H3 H4. unfold classify, resubmit, gateway_calls, gateway_cookies.
  destruct (captcha_detected content); [destruct (captchaSolver svc)|].
  - run_all taskId.
    all: do 2 eexists; (split; [reflexivity|]); unfold account_row in *; frames taskId.
    all: repeat split; chase.
    all: simpl; chase.
  - run_all taskId.
    all: do 2 eexists; (split; [reflexivity|]); unfold account_row in *; frames taskId.
    all: repeat split; chase.
    all: simpl; chase.
  - destruct (report_other_errors_run taskId content otherErrorPatterns false w)
      as (w0 & E & Hw0).
    rewrite (bind_run _ _ _ _ _ E). clear E. cbv beta.
    destruct (_ || _); [|destruct (left_signup (currentUrl sc))]; run_all taskId.
    all: do 2 eexists; (split; [reflexivity|]); unfold account_row in *; frames taskId.
    all: repeat split; chase.
    all: simpl; chase.
Qed.

(** ** The ways through an attempt *)

Lemma safe_run {A} (m : M A) w : safe m -> exists a w', m w = (Ok a, w').
Proof. intros H. destruct (H w) as [a Ha]. destruct (m w) as [r w']. simpl in Ha. subst. eauto. Qed.



Lemma solveCaptcha_logging svc sc taskId : steady logging (solveCaptcha svc sc taskId).
Proof. unfold solveCaptcha. logs. Qed.

Lemma injectCaptchaSolution_logging svc sc taskId :
  steady logging (injectCaptchaSolution svc sc taskId).
Proof. unfold injectCaptchaSolution. logs. Qed.

Global Hint Resolve solveCaptcha_logging injectCaptchaSolution_logging : logging.

(** What the resolver returns. *)
Lemma solveCaptcha_run svc sc taskId w :
  exists w', solveCaptcha svc sc taskId w = (Ok (captcha_token svc sc), w') /\
    logging w w'.
Proof.
  unfold solveCaptcha, captcha_token, try_catch.
  destruct (captchaSolver svc); run.
  all: try (destruct (truthy _); run).
  all: eexists; (split; [reflexivity|]).
  all: repeat (etransitivity; [eassumption|]); reflexivity.
Qed.


Ltac run_errors :=
  lazymatch goal with
  | |- context [bind (report_other_errors ?i ?c ?ps ?d) ?k ?w] =>
      let w' := fresh "w" in let E := fresh "E" in let H := fresh "Hlog" in
      destruct (report_other_errors_run i c ps d w) as (w' & E & H);
      rewrite (bind_run _ k w _ _ E); clear E; cbv beta
  end.

Ltac run_form n :=
  lazymatch goal with
  | Hs : submission ?c = Some ?content |- context [bind (submit_form ?s ?c ?i n) ?k ?w] =>
      let w' := fresh "w" in let E := fresh "E" in
      destruct (submit_form_run s c i n w content Hs) as (w' & E & ?&?&?&?&?&?&?&?&?&?&?);
      rewrite (bind_run _ k w _ _ E); clear E; cbv beta
  end.

Ltac run_close :=
  lazymatch goal with
  | |- context [bind close_all ?k ?w] =>
      let w' := fresh "w" in let E := fresh "Ew" in
      unfold close_all at 1;
      lazymatch goal with
      | |- context [bind (modify ?f) ?k' w] =>
          change (bind (modify f) k' w) with (k' tt (f w)); cbv beta;
          remember (f w) as w' eqn:E
      end
  end.


(** The same attempt when only the result is asked for: the handler of
    [verifyEmail] must return. *)
Lemma redirect_result svc sc taskId n w content cookies :
  submission sc = Some content ->
  captcha_detected content = false ->
  other_error_detected content = false ->
  left_signup (currentUrl sc) = true ->
  contextCookies sc = Resolves cookies ->
  closeContextCatch sc = Resolves tt -> closeBrowserCatch sc = Resolves tt ->
  fst (attemptSignup svc sc taskId n w) = Ok true.
Proof.
  intros Hs Hc He Hl Hk H3 H4.
  unfold attemptSignup, try_catch, signup, classify. run_step.
  run_form n. rewrite Hc. run_errors.
  unfold other_error_detected in He. rewrite He. change (false || false) with false.
  cbv iota. rewrite Hl, Hk. do 5 run_step.
  destruct (safe_run (verifyEmail svc sc taskId cookies) w6
              (verifyEmail_safe svc sc taskId cookies H3 H4)) as ([] & w7 & E).
  by rewrite (bind_run _ _ _ _ _ E).
Qed.

(** The attempt in which the browser does not start. *)
Lemma launch_fails svc sc taskId n w e :
  launch sc = Rejects e -> fst (attemptSignup svc sc taskId n w) = Ok false.
Proof.
  intros H. unfold attemptSignup, try_catch, signup, submit_form. rewrite H.
  run_all taskId. all: reflexivity.
Qed.


(** C9.  An attempt that gets to the page after the submission, finds a
    captcha marker on it and runs in a service without captcha solver:
    [solveCaptcha], from any world, returns [null]; the attempt returns
    [false] and does not throw; the page, the context and the browser it had
    opened are closed, in this order, and are closed when it returns; the
    account store is not called. *)
Theorem captcha_without_solver (svc : Service) (sc : Scenario) (taskId : string)
    (n : nat) (w : World) (content : string) :
  submission sc = Some content ->
  captcha_detected content = true ->
  captchaSolver svc = None ->
  (forall v, fst (solveCaptcha svc sc taskId v) = Ok None) /\
  exists w', attemptSignup svc sc taskId n w = (Ok false, w') /\
    browser w' = Closed /\ context w' = Closed /\ page w' = Closed /\
    closes (trace w') = closes (trace w) ++ [ThePage; TheContext; TheBrowser] /\
    accounts_saved (trace w') = accounts_saved (trace w).
Proof.
  intros Hs Hc Hn. split.
  - intros v. destruct (solveCaptcha_run svc sc taskId v) as (v' & E & _).
    rewrite E. unfold captcha_token. by rewrite Hn.
  - unfold attemptSignup, try_catch, signup, classify. run_step.
    run_form n. rewrite Hc, Hn. run_step. run_step. run_close. run_tail.
    eexists; (split; [reflexivity|]); frames taskId.
    chase. simpl. rewrite ?app_nil_r. repeat split; chase.
Qed.

(** The captcha page in a service without solver. *)
Lemma captcha_without_solver_witness :
  fst (attemptSignup Example.no_solver Example.captcha_wall "task-1" 1
         Example.created) = Ok false /\
  fst (solveCaptcha Example.no_solver Example.captcha_wall "task-1" Example.created) =
    Ok None.
Proof.
  destruct (captcha_without_solver Example.no_solver Example.captcha_wall "task-1" 1
              Example.created "<div>Please complete the CAPTCHA</div>")
    as (Hn & w' & E & _); [vm_compute; reflexivity..|].
  split; [by rewrite E|apply Hn].
Defined.

(** ** The account store over the life of a task *)

Lemma run_steady {A} (R : World -> World -> Prop) (m : M A) w r w' :
  steady R m -> m w = (r, w') -> R w w'.
Proof. intros H E. specialize (H w). by rewrite E in H. Qed.

Lemma any_run {A} (R : World -> World -> Prop) (m : M A) w :
  steady R m -> exists r w', m w = (r, w') /\ R w w'.
Proof. intros H. specialize (H w). destruct (m w) as [r w']. by exists r, w'. Qed.

(** The form, however far it gets. *)
Lemma submit_form_frame svc sc taskId n w :
  exists r w', submit_form svc sc taskId n w = (r, w') /\
    accounts_saved (trace w') = accounts_saved (trace w) /\
    cookie_rows_saved (trace w') = cookie_rows_saved (trace w) /\
    task_email taskId w' = task_email taskId w /\
    task_password taskId w' = task_password taskId w /\
    cookie_loads taskId (trace w') =
      cookie_loads taskId (trace w) ++ context_loads sc taskId w.
Proof.
  unfold submit_form, context_loads.
  repeat lazymatch goal with |- context [loadCookies] => run_step end.
  all: try lazymatch goal with
    | |- context [bind ?m ?k ?w] =>
        let E := fresh "E" in
        destruct (any_run (offline taskId) (bind m k) w) as (? & ? & E & ?);
        [solve [off]|rewrite E; clear E]
    end.
  all: run; do 2 eexists; (split; [reflexivity|]); frames taskId.
  all: repeat split; chase.
Qed.

(** One attempt and the account store. *)
Lemma attemptSignup_gateway svc sc taskId n w :
  closes_resolve sc ->
  exists b w', attemptSignup svc sc taskId n w = (Ok b, w') /\
    accounts_saved (trace w') =
      accounts_saved (trace w) ++ gateway_calls sc taskId w (Ok b) /\
    cookie_rows_saved (trace w') =
      cookie_rows_saved (trace w) ++ gateway_cookies sc (Ok b) /\
    task_email taskId w' = task_email taskId w /\
    task_password taskId w' = task_password taskId w /\
    cookie_loads taskId (trace w') =
      cookie_loads taskId (trace w) ++ context_loads sc taskId w.
Proof.
  intros (H1 & H2 & H3 & H4). unfold attemptSignup, try_catch, signup.
  run_step.
  destruct (submit_form_frame svc sc taskId n w0) as (r & w1 & E & ?&?&?&?&?).
  unfold bind at 1; rewrite E. clear E.
  destruct r as [content|e].
  - destruct (classify_gateway svc sc taskId content w1 H1 H2 H3 H4)
      as (r & w2 & -> & Ha & Hc & He & Hp & Hl).
    destruct r as [b|e].
    + exists b, w2. split; [done|]. unfold gateway_calls, account_row in *.
      frames taskId. repeat split; chase.
    + run_all taskId. do 2 eexists. split; [reflexivity|].
      unfold gateway_calls, account_row in *. frames taskId.
      repeat split; chase.
  - run_all taskId. do 2 eexists. split; [reflexivity|].
    unfold gateway_calls, account_row in *. frames taskId.
    repeat split; chase.
Qed.

Lemma task_status_record taskId evs w :
  task_status taskId (record evs w) = task_status taskId w.
Proof. reflexivity. Qed.

(** The block that ends the loop, run by [finish_block]. *)
Ltac finish_with Hw w' E Hs :=
  lazymatch goal with
  | |- context [bind (modify (set_status ?i ?s))
                  (fun _ => bind (modify (on_task _ (Task.with_completedAt
                                                       (Some (completed_now ?env)))))
                                 (fun _ => ?rest)) ?w] =>
      destruct (finish_block env i s rest w) as (w' & E & _ & _ & _ & Hs & _);
      [solve [moves]|solve [safety]|exact Hw|]
  end.

Section GatewayOverTask.

Variable svc : Service.
Variable env : Env.
Hypothesis closes_ok : forall n, closes_resolve (scenario env n).

Let attempt := fun (taskId : string) (n : nat) =>
  attemptSignup svc (scenario env n) taskId n.

Lemma reset_for_retry_offline taskId i n :
  steady (offline taskId) (reset_for_retry svc env i n).
Proof. unfold reset_for_retry. off. Qed.

Lemma before_attempt_offline taskId n :
  steady (offline taskId)
    ((if (1 <? n)%nat then reset_for_retry svc env taskId n else ret tt);;
     modify (record [EvAttempt taskId n]);;
     ret tt).
Proof.
  apply steady_bind; [typeclasses eauto| |intros ?].
  - destruct (1 <? n)%nat; [apply reset_for_retry_offline|off].
  - off.
Qed.

Lemma finish_offline taskId s :
  steady (offline taskId)
    (modify (set_status taskId s);;
     modify (on_task taskId (Task.with_completedAt (Some (completed_now env))));;
     notifyUpdate taskId;;
     modify (record [EvInterval taskId false])).
Proof. off. Qed.

Lemma retry_loop_step taskId rem n w w2 :
  ((if (1 <? n)%nat then reset_for_retry svc env taskId n else ret tt);;
   modify (record [EvAttempt taskId n]);;
   ret tt) w = (Ok tt, w2) ->
  retry_loop svc env attempt taskId (S rem) n w =
    (success <- attempt taskId n;;
     if success : bool then
       modify (set_status taskId completed);;
       modify (on_task taskId (Task.with_completedAt (Some (completed_now env))));;
       notifyUpdate taskId;;
       modify (record [EvInterval taskId false])
     else retry_loop svc env attempt taskId rem (S n)) w2.
Proof.
  intros E. simpl retry_loop. unfold bind at 1 in E. unfold bind at 1.
  destruct ((if (1 <? n)%nat then reset_for_retry svc env taskId n else ret tt) w)
    as [[[]|e] w1]; [|done].
  rewrite bind_modify in *. simpl in E. by injection E as ->.
Qed.

(** The loop calls the account store once, in the attempt that returns
    [true], and not at all when no attempt does. *)
Lemma retry_loop_gateway taskId rem : forall n w,
  is_Some (tasks w !! taskId) ->
  exists w', retry_loop svc env attempt taskId rem n w = (Ok tt, w') /\
    task_email taskId w' = task_email taskId w /\
    task_password taskId w' = task_password taskId w /\
    ((task_status taskId w' = Some failed /\
      accounts_saved (trace w') = accounts_saved (trace w) /\
      cookie_rows_saved (trace w') = cookie_rows_saved (trace w)) \/
     (exists k, (n <= k < n + rem)%nat /\
        task_status taskId w' = Some completed /\
        accounts_saved (trace w') =
          accounts_saved (trace w) ++
          [account_row (scenario env k) taskId w
             (verification_succeeds (scenario env k))] /\
        cookie_rows_saved (trace w') =
          cookie_rows_saved (trace w) ++ gateway_cookies (scenario env k) (Ok true))).
Proof.
  induction rem as [|rem IH]; intros n w Hw.
  - simpl retry_loop.
    finish_with Hw w' E Hs.
    assert (Hoff : offline taskId w w').
    { eapply run_steady; [|exact E]. off. }
    exists w'. split; [exact E|]. destruct Hoff as (?&?&?&?&?).
    repeat split; try done. by left.
  - destruct (before_attempt svc env taskId n w Hw) as (w2 & E & Hw2 & _).
    pose proof (run_steady _ _ _ _ _ (before_attempt_offline taskId n) E) as Hoff.
    rewrite (retry_loop_step _ _ _ _ _ E).
    destruct (attemptSignup_gateway svc (scenario env n) taskId n w2 (closes_ok n))
      as (b & w3 & E3 & Ha & Hc & He & Hp & _).
    assert (Hw3 : is_Some (tasks w3 !! taskId)).
    { eapply moves_is_Some; [|exact Hw2].
      eapply run_steady; [apply attemptSignup_moves|exact E3]. }
    unfold bind at 1. unfold attempt at 1. rewrite E3.
    destruct b.
    + finish_with Hw3 w' E' Hs.
      pose proof (run_steady _ _ _ _ _ (finish_offline taskId completed) E') as Hoff12.
      exists w'. split; [exact E'|].
      unfold gateway_calls, account_row in *. frames taskId.
      repeat split; try chase.
      right. exists n. split; [lia|]. repeat split; chase.
    + destruct (IH (S n) w3 Hw3) as (w' & E' & He' & Hp' & Hr).
      exists w'. split; [exact E'|].
      unfold gateway_calls, account_row in *. frames taskId.
      rewrite ?app_nil_r in *.
      repeat split; try chase.
      destruct Hr as [(?&?&?)|(k & ? & ? & ? & ?)]; [left|right].
      * repeat split; chase.
      * exists k. split; [lia|]. repeat split; chase.
Qed.

Lemma runAutomation_gateway taskId w :
  is_Some (tasks w !! taskId) ->
  exists w', runAutomationWith svc env attempt taskId w = (Ok tt, w') /\
    task_email taskId w' = task_email taskId w /\
    task_password taskId w' = task_password taskId w /\
    ((task_status taskId w' = Some failed /\
      accounts_saved (trace w') = accounts_saved (trace w) /\
      cookie_rows_saved (trace w') = cookie_rows_saved (trace w)) \/
     (exists k, (1 <= k <= MAX_RETRIES)%nat /\
        task_status taskId w' = Some completed /\
        accounts_saved (trace w') =
          accounts_saved (trace w) ++
          [account_row (scenario env k) taskId w
             (verification_succeeds (scenario env k))] /\
        cookie_rows_saved (trace w') =
          cookie_rows_saved (trace w) ++ gateway_cookies (scenario env k) (Ok true))).
Proof.
  intros Hw. unfold runAutomationWith. unfold bind at 1, gets.
  destruct Hw as [t Ht]. rewrite Ht. rewrite bind_modify.
  pose proof (offline_set_status taskId taskId running w) as Hoff.
  assert (Hw0 : is_Some (tasks (set_status taskId running w) !! taskId)).
  { unfold set_status. simpl. apply (is_Some_on_task taskId taskId _ w). by eexists. }
  remember (set_status taskId running w) as w0 eqn:Ew0. clear Ew0.
  run_step. run_step. rewrite bind_modify.
  assert (Hw3 : is_Some (tasks (record [EvInterval taskId true] w2) !! taskId)).
  { simpl. eapply moves_is_Some; [|exact Hw0].
    etransitivity; apply logging_moves; eassumption. }
  destruct (retry_loop_gateway taskId MAX_RETRIES 1 _ Hw3) as (w4 & E & He & Hp & Hr).
  unfold try_finally. rewrite E. eexists. split; [reflexivity|]. clear E.
  rewrite !task_status_record. unfold account_row in *. frames taskId.
  repeat split; try chase.
  destruct Hr as [(?&?&?)|(k & ? & ? & ? & ?)]; [left|right].
  - repeat split; chase.
  - exists k. split; [unfold MAX_RETRIES in *; lia|]. repeat split; chase.
Qed.

Lemma createReplitAccount_gateway email w :
  let taskId := nanoid env in
  exists w', createReplitAccountWith svc env attempt email w = (Ok taskId, w') /\
  ((task_status taskId w' = Some failed /\
    accounts_saved (trace w') = accounts_saved (trace w) /\
    cookie_rows_saved (trace w') = cookie_rows_saved (trace w)) \/
   (exists k, (1 <= k <= MAX_RETRIES)%nat /\
      task_status taskId w' = Some completed /\
      accounts_saved (trace w') =
        accounts_saved (trace w) ++
        [{| row_email := email; row_password := Some email;
            row_verified := verification_succeeds (scenario env k);
            row_verified_at :=
              if verification_succeeds (scenario env k)
              then Some (verified_at (scenario env k)) else None |}] /\
      cookie_rows_saved (trace w') =
        cookie_rows_saved (trace w) ++ gateway_cookies (scenario env k) (Ok true))).
Proof.
  intros taskId. unfold createReplitAccountWith. fold taskId.
  rewrite bind_modify.
  set (w0 := with_tasks _ w).
  assert (Hw0 : is_Some (tasks w0 !! taskId)).
  { subst w0. simpl. rewrite lookup_insert_eq. by eexists. }
  assert (He0 : task_email taskId w0 = email).
  { subst w0. unfold task_email. simpl. by rewrite lookup_insert_eq. }
  assert (Hp0 : task_password taskId w0 = Some email).
  { subst w0. unfold task_password. simpl. by rewrite lookup_insert_eq. }
  assert (Ha0 : accounts_saved (trace w0) = accounts_saved (trace w)) by done.
  assert (Hc0 : cookie_rows_saved (trace w0) = cookie_rows_saved (trace w)) by done.
  clearbody w0.
  do 3 run_step.
  assert (Hw3 : is_Some (tasks w3 !! taskId)).
  { eapply moves_is_Some; [|exact Hw0].
    do 2 (etransitivity; [apply logging_moves; eassumption|]).
    apply logging_moves; eassumption. }
  destruct (runAutomation_gateway taskId w3 Hw3) as (w4 & E & He & Hp & Hr).
  rewrite (bind_run _ _ w3 tt w4) by (unfold try_catch; by rewrite E).
  exists w4. split; [done|]. clear E.
  unfold account_row in *. frames taskId.
  destruct Hr as [(?&?&?)|(k & ? & ? & ? & ?)]; [left|right].
  - repeat split; chase.
  - exists k. split; [done|]. repeat split; chase.
Qed.


End GatewayOverTask.

(** ** The result of an attempt that is redirected *)




(** ** The calls of the account store *)

(** C2, as the code has it.  When the [close()] calls of the verification
    resolve, a run of [createReplitAccount] returns the task id and either
    leaves the task [failed] without any call of the account store, or
    leaves it [completed] with exactly one call: the account row of the
    attempt k that returned [true], with email and password of the task and
    [verified] as the verification of that attempt went, followed by the
    cookie rows of that attempt. *)
Theorem gateway_calls_of_a_task (svc : Service) (env : Env) (email : string)
    (w : World) :
  (forall n, closes_resolve (scenario env n)) ->
  let taskId := nanoid env in
  let out := createReplitAccount svc env email w in
  fst out = Ok taskId /\
  ((task_status taskId (snd out) = Some failed /\
    accounts_saved (trace (snd out)) = accounts_saved (trace w) /\
    cookie_rows_saved (trace (snd out)) = cookie_rows_saved (trace w)) \/
   (exists k, (1 <= k <= MAX_RETRIES)%nat /\
      task_status taskId (snd out) = Some completed /\
      accounts_saved (trace (snd out)) =
        accounts_saved (trace w) ++
        [{| row_email := email; row_password := Some email;
            row_verified := verification_succeeds (scenario env k);
            row_verified_at :=
              if verification_succeeds (scenario env k)
              then Some (verified_at (scenario env k)) else None |}] /\
      cookie_rows_saved (trace (snd out)) =
        cookie_rows_saved (trace w) ++ gateway_cookies (scenario env k) (Ok true))).
Proof.
  intros Hc taskId out.
  destruct (createReplitAccount_gateway svc env Hc email w) as (w' & E & H).
  subst out. unfold createReplitAccount. rewrite E. split; [done|exact H].
Qed.

(** The run in which the verification mail is there. *)
Lemma gateway_calls_of_a_task_witness :
  let out := createReplitAccount Example.no_solver
               (Example.env_of (fun _ => Example.welcome)) "user@antdev.org"
               empty_world in
  task_status "task-1" (snd out) = Some completed /\
  map row_verified (accounts_saved (trace (snd out))) = [true].
Proof.
  intros out.
  destruct (gateway_calls_of_a_task Example.no_solver
              (Example.env_of (fun _ => Example.welcome)) "user@antdev.org"
              empty_world) as [_ [(Hs & _)|(k & _ & Hs & Ha & _)]].
  - intros n. repeat split.
  - vm_compute in Hs. discriminate Hs.
  - split; [exact Hs|]. fold out in Ha. rewrite Ha. reflexivity.
Defined.

(** C2 as the claim has it fails.  A task whose three attempts are refused
    by the provider ends [failed] and the account store is never called.
    And when [context.close()] rejects after a successful verification, the
    handler of [verifyEmail] calls the account store a second time, with
    [verified] false. *)
Lemma gateway_not_called_or_called_twice :
  let failing := createReplitAccount Example.no_solver
                   (Example.env_of (fun _ => Example.email_taken))
                   "user@antdev.org" empty_world in
  let closing := createReplitAccount Example.no_solver
                   (Example.env_of (fun _ => Example.close_fails))
                   "user@antdev.org" empty_world in
  (task_status "task-1" (snd failing) = Some failed /\
   attempts_made "task-1" (trace (snd failing)) = [1; 2; 3]%nat /\
   accounts_saved (trace (snd failing)) = [] /\
   cookie_rows_saved (trace (snd failing)) = []) /\
  (task_status "task-1" (snd closing) = Some completed /\
   attempts_made "task-1" (trace (snd closing)) = [1]%nat /\
   map row_verified (accounts_saved (trace (snd closing))) = [true; false]).
Proof. vm_compute. repeat split; reflexivity. Qed.

(** ** The cookies of the session *)




(** ** The retry loop on two runs *)

Lemma is_Some_created : is_Some (tasks Example.created !! "task-1").
Proof. by eexists. Defined.

(** The first attempt crashes and the second is redirected; all attempts
    crash. *)
Lemma retry_loop_outcomes_witness :
  let recovering := Example.env_of
                      (fun n => if (n <? 2)%nat then Example.crash else Example.silent) in
  let failing := Example.env_of (fun _ => Example.crash) in
  let out := runAutomation Example.no_solver recovering "task-1" Example.created in
  let out' := runAutomation Example.no_solver failing "task-1" Example.created in
  (task_status "task-1" (snd out) = Some completed /\
   attempts_made "task-1" (trace (snd out)) = [1; 2]%nat) /\
  (task_status "task-1" (snd out') = Some failed /\
   attempts_made "task-1" (trace (snd out')) = [1; 2; 3]%nat).
Proof.
  intros recovering failing out out'. split.
  - destruct (retry_loop_outcomes Example.no_solver recovering "task-1"
                Example.created is_Some_created) as [H _].
    destruct (H 2%nat) as (_ & Hs & _ & Ha).
    + unfold MAX_RETRIES. lia.
    + intros j v Hj. assert (j = 1%nat) as -> by lia.
      exact (launch_fails Example.no_solver Example.crash "task-1" 1 v _ eq_refl).
    + intros v.
      apply (redirect_result _ _ _ _ _ "<html>Welcome</html>" [Example.session_cookie]);
        vm_compute; reflexivity.
    + split; [exact Hs|exact Ha].
  - destruct (retry_loop_outcomes Example.no_solver failing "task-1"
                Example.created is_Some_created) as [_ H].
    destruct H as (_ & Hs & _ & Ha).
    + intros j v Hj.
      exact (launch_fails Example.no_solver Example.crash "task-1" j v _ eq_refl).
    + split; [exact Hs|exact Ha].
Defined.

(** ** The worker pool *)

Lemma count_app (f : Job -> bool) l l' :
  length (filter (fun j => f j = true) (l ++ l')) =
  (length (filter (fun j => f j = true) l) +
   length (filter (fun j => f j = true) l'))%nat.
Proof. by rewrite filter_app, length_app. Qed.

Lemma count_cons (f : Job -> bool) j l :
  length (filter (fun j => f j = true) (j :: l)) =
  ((if f j then 1 else 0) + length (filter (fun j => f j = true) l))%nat.
Proof.
  rewrite filter_cons. destruct (f j) eqn:E.
  - by rewrite decide_True.
  - by rewrite decide_False by congruence.
Qed.

Lemma count_insert (f : Job -> bool) i x y l :
  l !! i = Some x ->
  (length (filter (fun j => f j = true) (<[i := y]> l)) + (if f x then 1 else 0) =
   length (filter (fun j => f j = true) l) + (if f y then 1 else 0))%nat.
Proof.
  revert i. induction l as [|z l IH]; intros [|i] H; simpl in *; try done.
  - injection H as ->. rewrite !count_cons. lia.
  - rewrite !count_cons. specialize (IH i H). lia.
Qed.


Lemma permits_counted_start : permits_counted fleet0.
Proof. unfold permits_counted, count_jobs, MAX_WORKERS. simpl. repeat split; lia. Qed.

Lemma permits_counted_act a s s' :
  permits_counted s -> act a s = Some s' -> permits_counted s'.
Proof.
  unfold permits_counted, count_jobs. intros (Ha & Hm & Hq & Hb) H.
  destruct a as [| i | | i | i]; simpl in H.
  - injection H as <-. simpl. rewrite count_app. simpl.
    repeat split; try done; lia.
  - destruct (jobs s !! i) as [[[]|]|] eqn:E; try done. injection H as <-. simpl.
    pose proof (count_insert holds_permit i _ (Direct false) _ E) as Hc. simpl in Hc.
    repeat split; try done; lia.
  - injection H as <-. simpl. rewrite count_app. simpl.
    repeat split; try done; lia.
  - destruct (jobs s !! i) as [[|[]]|] eqn:E; try done.
    unfold WorkerPool.poll in H.
    destruct (Z.leb_spec (WorkerPool.maxWorkers (workerPool s))
                         (WorkerPool.activeWorkers (workerPool s))).
    + injection H as <-. done.
    + injection H as <-. simpl.
      pose proof (count_insert holds_permit i _ (Pooled Running) _ E) as Hc.
      simpl in Hc. repeat split; try done; lia.
  - destruct (jobs s !! i) as [[|[]]|] eqn:E; try done. injection H as <-.
    pose proof (count_insert holds_permit i _ (Pooled Returned) _ E) as Hc.
    simpl in Hc. unfold WorkerPool.release, WorkerPool.processQueue. simpl.
    rewrite Hq. simpl. repeat split; try done; lia.
Qed.

Lemma permits_counted_run actions : forall s s',
  permits_counted s -> run actions s = Some s' -> permits_counted s'.
Proof.
  induction actions as [|a actions IH]; intros s s' Hs H; simpl in H.
  - by injection H as <-.
  - destruct (act a s) as [s1|] eqn:E; [|done].
    eapply IH; [|exact H]. eapply permits_counted_act; eassumption.
Qed.




(** * Further properties of the service and of the mailbox client *)

(** ** The link of the verification mail *)










(** ** The messages the poller looks at *)


(** ** The step a status is written to *)

Lemma set_step_find stepId s l :
  match list_find (fun x => Step.id x = stepId) l with
  | Some (i, x) => set_step stepId s l = <[i := Step.with_status s x]> l
  | None => set_step stepId s l = l
  end.
Proof.
  induction l as [|x l IH]; [done|]. simpl.
  destruct (String.eqb_spec (Step.id x) stepId) as [E|E].
  - by rewrite decide_True.
  - rewrite decide_False by done.
    destruct (list_find _ l) as [[i y]|]; simpl; by rewrite IH.
Qed.

(** X3.  [updateStep] on a task of the map never throws and records no
    event; it sets the status of the first step with the given id and of no
    other step, leaves the steps alone when no step has this id, appends the
    log line only when it is a non-empty string, and changes no other field
    of the task. *)
Theorem updateStep_first_match (taskId stepId : string) (s : Status)
    (log : option string) (w : World) (t : Task.t) :
  tasks w !! taskId = Some t ->
  let out := updateStep taskId stepId s log w in
  fst out = Ok tt /\
  trace (snd out) = trace w /\
  exists t', tasks (snd out) !! taskId = Some t' /\
    Task.steps t' =
      match list_find (fun x => Step.id x = stepId) (Task.steps t) with
      | Some (i, x) => <[i := Step.with_status s x]> (Task.steps t)
      | None => Task.steps t
      end /\
    Task.logs t' =
      match log with
      | Some (String c l) => Task.logs t ++ [String c l]
      | _ => Task.logs t
      end /\
    Task.with_steps (Task.steps t) (Task.with_logs (Task.logs t) t') = t.
Proof.
  intros Ht out. subst out. unfold updateStep, bind, modify.
  pose proof (set_step_find stepId s (Task.steps t)) as Hf.
  destruct log as [[|c l]|]; simpl; rewrite ?lookup_alter_eq, Ht; simpl.
  all: repeat split; eexists; (split; [reflexivity|]); simpl.
  all: destruct t; simpl in *.
  all: destruct (list_find _ _) as [[i x]|]; by rewrite ?Hf.
Qed.

(** An unknown step id and an empty log line change nothing. *)
Lemma updateStep_first_match_witness :
  let w' := snd (updateStep "task-1" "nowhere" failed (Some "") Example.created) in
  Task.steps <$> tasks w' !! "task-1" = Some initial_steps /\
  Task.logs <$> tasks w' !! "task-1" = Some [].
Proof.
  intros w'.
  destruct (updateStep_first_match "task-1" "nowhere" failed (Some "")
              Example.created (new_task "task-1" "user@antdev.org" 1000) eq_refl)
    as (_ & _ & t' & Ht' & Hs & Hl & _).
  fold w' in Ht'. rewrite Ht'. simpl. by rewrite Hs, Hl.
Defined.

(** ** The captcha patterns *)

Lemma strip_ci_app a b : forall s r,
  JsString.strip_ci (a +:+ b) s = Some r -> is_Some (JsString.strip_ci a s).
Proof.
  induction a as [|c a IH]; intros s r H.
  - by destruct s.
  - destruct s as [|d s]; [done|]. simpl in *.
    destruct (JsString.ascii_eqb_ci c d); [|done]. by eapply IH.
Qed.

Lemma test_ci_weaken (p q : list string) :
  (forall s, JsString.segments_here p s = true -> JsString.segments_here q s = true) ->
  forall s, JsString.test_ci p s = true -> JsString.test_ci q s = true.
Proof.
  intros H. induction s as [|c s IH]; simpl; intros Hs.
  - rewrite orb_false_r in *. by rewrite H.
  - apply orb_true_iff in Hs as [Hs|Hs]; [by rewrite H|].
    rewrite IH by done. apply orb_true_r.
Qed.

(** X4.  The three captcha patterns decide what the first one decides
    alone: a page is classified as a captcha page exactly when it contains
    [captcha], read case-insensitively. *)
Theorem captcha_detected_one_pattern (content : string) :
  captcha_detected content = JsString.test_ci ["captcha"] content.
Proof.
  unfold captcha_detected, captchaPatterns. simpl. rewrite orb_false_r.
  destruct (JsString.test_ci ["captcha"] content) eqn:E; [by rewrite !orb_true_r|].
  rewrite orb_false_r.
  assert (H1 : JsString.test_ci ["captcha token is invalid"] content = false).
  { destruct (JsString.test_ci ["captcha token is invalid"] content) eqn:E1; [|done].
    rewrite <- E. symmetry. revert E1. apply test_ci_weaken. intros s.
    unfold JsString.segments_here.
    destruct (JsString.strip_ci "captcha token is invalid" s) as [r|] eqn:Hr; [|done].
    intros _.
    by destruct (strip_ci_app "captcha" " token is invalid" s r Hr) as [r' ->]. }
  assert (H2 : JsString.test_ci ["captcha"; "expired"] content = false).
  { destruct (JsString.test_ci ["captcha"; "expired"] content) eqn:E2; [|done].
    rewrite <- E. symmetry. revert E2. apply test_ci_weaken. intros s.
    unfold JsString.segments_here.
    by destruct (JsString.strip_ci "captcha" s). }
  by rewrite H1, H2.
Qed.

(** ** The fingerprint *)

(** X5.  The viewport of a fingerprint is always one of the listed
    viewports: the random index never leaves the list. *)
Theorem fingerprint_viewport_listed (sc : Scenario) :
  In (fingerprint_viewport sc) viewports.
Proof.
  unfold fingerprint_viewport. apply nth_In.
  pose proof (random_int_range (viewport_draw sc) (Z.of_nat (length viewports))
                ltac:(simpl; lia)).
  lia.
Qed.

(** ** The waits of the poller *)






(** ** The two tables of the account store *)


(** ** The cookie files *)

(** X8.  [saveCookies] never throws; it replaces the cookie file of its task
    when the cookies can be read and the file written, leaves it as it is
    otherwise, and touches no file of another task.  [loadCookies] afterwards
    returns [true] exactly when the file of the task exists and the context
    takes the cookies, and leaves every file as it is. *)
Theorem cookie_file_round_trip (sc sc' : Scenario) (taskId : string) (w : World) :
  let saved := saveCookies sc taskId w in
  let loaded := loadCookies sc' taskId (snd saved) in
  fst saved = Ok tt /\
  cookieFiles (snd saved) !! taskId =
    match session_write sc with
    | cookies :: _ => Some cookies
    | [] => cookieFiles w !! taskId
    end /\
  (forall j, j <> taskId -> cookieFiles (snd saved) !! j = cookieFiles w !! j) /\
  fst loaded =
    Ok match cookieFiles (snd saved) !! taskId, addCookies sc' with
       | Some _, Resolves _ => true
       | _, _ => false
       end /\
  cookieFiles (snd loaded) = cookieFiles (snd saved).
Proof.
  intros saved loaded. subst loaded. rewrite loadCookies_run. subst saved.
  unfold saveCookies, session_write, cookies_loaded, try_catch, bind, modify, await, ret.
  destruct (contextCookies sc) as [cs|e], (writeCookieFile sc) as [[]|e']; simpl.
  all: repeat split; try done.
  - apply lookup_insert_eq.
  - intros j Hj. by apply lookup_insert_ne.
Qed.

(** ** The browser after an attempt *)










(** ** The result of an attempt *)








(** ** The outcome of a task *)




(** ** The pool, seen by a caller of [execute] *)





(** X13.  In every state the pool can reach, the queue is empty and
    [processQueue] does nothing; the number of permits taken stays between 0
    and [maxWorkers]; a poll takes a permit exactly when one is free, and
    the release gives back the very state before it. *)
Theorem permit_goes_back (actions : list Action) (s : Fleet) :
  run actions fleet0 = Some s ->
  let p := workerPool s in
  WorkerPool.queue p = [] /\
  WorkerPool.processQueue p = p /\
  0 <= WorkerPool.activeWorkers p <= WorkerPool.maxWorkers p /\
  match WorkerPool.poll p with
  | Some p' =>
      WorkerPool.activeWorkers p < WorkerPool.maxWorkers p /\
      WorkerPool.activeWorkers p' = WorkerPool.activeWorkers p + 1 /\
      WorkerPool.release p' = p
  | None => WorkerPool.activeWorkers p = WorkerPool.maxWorkers p
  end.
Proof.
  intros Hrun p.
  destruct (permits_counted_run actions fleet0 s permits_counted_start Hrun)
    as (Ha & Hm & Hq & Hb).
  fold p in Ha, Hm, Hq.
  split; [exact Hq|]. split.
  { unfold WorkerPool.processQueue. by rewrite Hq. }
  split; [lia|].
  unfold WorkerPool.poll.
  destruct (Z.leb_spec (WorkerPool.maxWorkers p) (WorkerPool.activeWorkers p));
    simpl.
  - lia.
  - split; [lia|]. split; [done|].
    unfold WorkerPool.release, WorkerPool.processQueue. simpl. rewrite Hq.
    destruct p; simpl in *. subst. f_equal. lia.
Qed.

(** The pool after two calls of which one holds a permit. *)
Lemma permit_goes_back_witness :
  let s := {| workerPool := {| WorkerPool.maxWorkers := 3;
                               WorkerPool.activeWorkers := 1;
                               WorkerPool.queue := [] |};
              jobs := [Pooled Running; Pooled Polling] |} in
  run [Execute; Execute; Poll 0]%nat fleet0 = Some s /\
  WorkerPool.processQueue (workerPool s) = workerPool s.
Proof.
  intros s. split; [reflexivity|].
  destruct (permit_goes_back [Execute; Execute; Poll 0]%nat s eq_refl) as (_ & H & _).
  exact H.
Defined.

Section Cache.
Context {T : Type}.
Implicit Types (c : gmap string (CacheService.CacheEntry T)) (key pattern : string)
  (now : Z).

Lemma get_lookup now key c key' :
  snd (CacheService.get now key c) !! key' =
    if decide (key' = key)
    then match fst (CacheService.get now key c) with
         | Some _ => c !! key
         | None => None
         end
    else c !! key'.
Proof.
  unfold CacheService.get.
  destruct (c !! key) as [entry|] eqn:E; [destruct (_ <? _)|]; simpl.
  - destruct (decide _) as [->|?]; [by rewrite lookup_delete_eq|by rewrite lookup_delete_ne].
  - by destruct (decide _) as [->|?].
  - by destruct (decide _) as [->|?].
Qed.

Lemma has_get now key c :
  CacheService.has now key c =
    (bool_decide (is_Some (fst (CacheService.get now key c))),
     snd (CacheService.get now key c)).
Proof.
  unfold CacheService.has, CacheService.get.
  destruct (c !! key) as [entry|]; [destruct (_ <? _)|]; simpl; try done.
Qed.

(** X14.  A value is served until it is strictly older than its time to live, and
    storing it disturbs no other key. *)
Theorem stored_value_is_served_until_it_expires now now' key key' (d : T) ttlMs c :
  fst (CacheService.get now' key' (CacheService.set now key d ttlMs c)) =
    if decide (key' = key)
    then (if ttlMs <? now' - now then None else Some d)
    else fst (CacheService.get now' key' c).
Proof.
  unfold CacheService.get, CacheService.set.
  destruct (decide _) as [->|Hne].
  - rewrite lookup_insert_eq. simpl. by destruct (_ <? _).
  - rewrite lookup_insert_ne by congruence.
    destruct (c !! key') as [entry|]; [|done]. by destruct (_ <? _).
Qed.

(** X15.  A read that misses leaves no entry under its key, a read that hits
    leaves the cache as it is, no read touches another key, and [has] is
    [get] without the value. *)
Theorem a_miss_leaves_no_entry now key c :
  (fst (CacheService.get now key c) = None ->
     snd (CacheService.get now key c) !! key = None) /\
  (is_Some (fst (CacheService.get now key c)) ->
     snd (CacheService.get now key c) = c) /\
  (forall key', key' <> key -> snd (CacheService.get now key c) !! key' = c !! key') /\
  CacheService.has now key c =
    (bool_decide (is_Some (fst (CacheService.get now key c))),
     snd (CacheService.get now key c)).
Proof.
  split; [|split; [|split]].
  - intros H. rewrite get_lookup, H. by destruct (decide _).
  - unfold CacheService.get.
    destruct (c !! key) as [entry|]; [destruct (_ <? _)|]; simpl; try done.
    all: by intros [? ?].
  - intros key' Hne. rewrite get_lookup. by destruct (decide _).
  - apply has_get.
Qed.

(** X16.  With a clock that does not go back, deleting expired entries on a read
    is invisible: a later read of any key returns what it would have returned
    without the earlier one. *)
Theorem purge_on_read_is_invisible now now' key key' c :
  now <= now' ->
  fst (CacheService.get now' key' (snd (CacheService.get now key c))) =
    fst (CacheService.get now' key' c).
Proof.
  intros Hclock.
  assert (Hfst : forall c1 c2 : gmap string (CacheService.CacheEntry T),
    c1 !! key' = c2 !! key' ->
    fst (CacheService.get now' key' c1) = fst (CacheService.get now' key' c2)).
  { intros c1 c2 H. unfold CacheService.get. rewrite H.
    destruct (c2 !! key') as [entry|]; [|done]. by destruct (_ <? _). }
  destruct (decide (key' = key)) as [->|Hne].
  - unfold CacheService.get at 2.
    destruct (c !! key) as [entry|] eqn:E; [|done].
    destruct (CacheService.ttl entry <? now - CacheService.timestamp entry) eqn:Hage;
      simpl; [|done].
    apply Z.ltb_lt in Hage. unfold CacheService.get.
    rewrite lookup_delete_eq, E. simpl.
    by destruct (Z.ltb_spec (CacheService.ttl entry)
                   (now' - CacheService.timestamp entry)); [|lia].
  - apply Hfst. rewrite get_lookup. by destruct (decide _).
Qed.

Lemma foldl_delete_lookup (keys : list string) : forall c key,
  foldl (fun m k => delete k m) c keys !! key =
    if decide (key ∈ keys) then None else c !! key.
Proof.
  induction keys as [|k keys IH]; intros c key; simpl; [done|].
  rewrite IH. destruct (decide (key ∈ keys)) as [Hin|Hout].
  - rewrite decide_True; [done|by right].
  - destruct (decide (key = k)) as [->|Hne].
    + rewrite lookup_delete_eq, decide_True; [done|by left].
    + rewrite lookup_delete_ne by done. rewrite decide_False; [done|].
      intros [?|?]%elem_of_cons; done.
Qed.

Lemma invalidatePattern_lookup pattern c key :
  CacheService.invalidatePattern pattern c !! key =
    if JsString.includes key pattern then None else c !! key.
Proof.
  unfold CacheService.invalidatePattern. rewrite foldl_delete_lookup.
  destruct (decide _) as [Hin|Hout].
  - apply list_elem_of_In, filter_In in Hin as [_ ->]. done.
  - destruct (JsString.includes key pattern) eqn:Hinc; [|done].
    destruct (c !! key) as [entry|] eqn:E; [|done]. exfalso. apply Hout.
    apply list_elem_of_In, filter_In. split; [|done].
    apply list_elem_of_In, list_elem_of_fmap. exists (key, entry).
    split; [done|]. by apply elem_of_map_to_list.
Qed.

(** X17.  [invalidatePattern] removes exactly the keys that contain the pattern
    anywhere; with the empty pattern it removes every key. *)
Theorem invalidatePattern_removes_matching_keys pattern c key :
  CacheService.invalidatePattern pattern c !! key =
    if JsString.includes key pattern then None else c !! key.
Proof. apply invalidatePattern_lookup. Qed.

Lemma filter_fmap_length {A B} (f : B -> bool) (g : A -> B) (l : list A) :
  length (List.filter f (g <$> l)) = length (List.filter (fun a => f (g a)) l).
Proof.
  induction l as [|a l IH]; [done|]. rewrite fmap_cons. cbn [List.filter].
  destruct (f (g a)); cbn [length]; by rewrite IH.
Qed.

(** X18.  The statistics agree with the reads: [total] is the size of the cache,
    [valid] counts the keys for which [has] answers true at the same time,
    and [expired] counts the others. *)
Theorem stats_count_what_has_answers now c :
  let stats := CacheService.getStats now c in
  let keys := (map_to_list c).*1 in
  CacheService.total stats = size c /\
  CacheService.valid stats =
    length (List.filter (fun key => fst (CacheService.has now key c)) keys) /\
  CacheService.expired stats =
    length (List.filter (fun key => negb (fst (CacheService.has now key c))) keys) /\
  (CacheService.valid stats + CacheService.expired stats)%nat =
    CacheService.total stats.
Proof.
  intros stats keys. subst stats keys. unfold CacheService.getStats. simpl.
  set (entries := map_to_list c).
  set (live := fun e : string * CacheService.CacheEntry T =>
                 now - CacheService.timestamp (snd e) <=? CacheService.ttl (snd e)).
  assert (Hhas : forall e, In e entries -> fst (CacheService.has now (fst e) c) = live e).
  { intros [key entry] Hin. apply list_elem_of_In, elem_of_map_to_list in Hin.
    unfold CacheService.has, live. simpl. rewrite Hin.
    destruct (Z.ltb_spec (CacheService.ttl entry) (now - CacheService.timestamp entry)),
      (Z.leb_spec (now - CacheService.timestamp entry) (CacheService.ttl entry));
      simpl; first [done|lia]. }
  assert (Hvalid : length (List.filter live entries) =
            length (List.filter (fun key => fst (CacheService.has now key c)) entries.*1)).
  { rewrite filter_fmap_length. f_equal. symmetry. by apply filter_ext_in. }
  assert (Hexpired : length (List.filter (fun e => negb (live e)) entries) =
            length (List.filter (fun key => negb (fst (CacheService.has now key c)))
                      entries.*1)).
  { rewrite filter_fmap_length. f_equal. symmetry. apply filter_ext_in.
    intros e He. simpl. by rewrite Hhas. }
  pose proof (filter_length live entries) as Hsum.
  pose proof (filter_length_le live entries) as Hle.
  rewrite <- Hvalid, <- Hexpired. unfold entries at 1. rewrite length_map_to_list.
  repeat split; try done; lia.
Qed.

End Cache.

Section Mailbox.
Import EmailService.
Implicit Types (c : gmap string (CacheService.CacheEntry (list Message))).

Lemma cacheKey_inj email email' : cacheKey email = cacheKey email' -> email = email'.
Proof. unfold cacheKey. intros H. by simplify_eq. Qed.

Lemma cacheKey_matches email : JsString.includes (cacheKey email) "messages:" = true.
Proof. by destruct email. Qed.

Lemma fetch_requests call key c : requested (fst (fetch call key c)) = true.
Proof. unfold fetch. by destruct (fetched call). Qed.

Lemma fetch_lookup call key c key' :
  key' <> key -> snd (fetch call key c) !! key' = c !! key'.
Proof.
  intros Hne. unfold fetch, CacheService.set. destruct (fetched call); simpl; [|done].
  by rewrite lookup_insert_ne by congruence.
Qed.

Lemma getMessages_miss call email c :
  c !! cacheKey email = None ->
  getMessages call email false c = fetch call (cacheKey email) c.
Proof. intros H. unfold getMessages, CacheService.get. simpl. by rewrite H. Qed.

(** X19.  A mailbox that was fetched is answered from the cache, without a request,
    as long as the read comes no later than 10000 ms after the answer was
    stored, and is requested again after that. *)
Theorem fetched_mailbox_is_cached_for_ten_seconds call0 call1 email bypassCache c ms :
  requested (fst (getMessages call0 email bypassCache c)) = true ->
  fetched call0 = Resolves ms ->
  let c0 := snd (getMessages call0 email bypassCache c) in
  let out := getMessages call1 email false c0 in
  messages (fst (getMessages call0 email bypassCache c)) = ms /\
  requested (fst out) = (10000 <? read_at call1 - stored_at call0) /\
  (requested (fst out) = false -> messages (fst out) = ms /\ snd out = c0).
Proof.
  intros Hreq Hms c0 out.
  assert (exists c', getMessages call0 email bypassCache c =
            ({| messages := ms; requested := true |},
             CacheService.set (stored_at call0) (cacheKey email) ms cacheTTL c'))
    as [c' E].
  { revert Hreq. unfold getMessages, fetch. rewrite Hms.
    destruct bypassCache; simpl; [by eexists|].
    destruct (CacheService.get _ _ _) as [[cached|] c']; simpl; [done|by eexists]. }
  subst out c0. rewrite E. simpl. split; [done|].
  unfold getMessages, CacheService.get, CacheService.set. simpl.
  rewrite lookup_insert_eq. simpl. unfold cacheTTL.
  destruct (10000 <? read_at call1 - stored_at call0); simpl; [|done].
  split; [apply fetch_requests|]. by rewrite fetch_requests.
Qed.

(** X20.  A request that fails answers the empty list and stores nothing; a forced
    refresh that fails leaves the cache as it was, the old entry included. *)
Theorem failed_request_answers_empty_list call email bypassCache c e :
  fetched call = Rejects e ->
  let out := getMessages call email bypassCache c in
  (requested (fst out) = true -> messages (fst out) = []) /\
  (bypassCache = true -> requested (fst out) = true /\ snd out = c) /\
  snd out ⊆ c.
Proof.
  intros He out. subst out. unfold getMessages, fetch, CacheService.get. rewrite He.
  destruct bypassCache; simpl; [done|].
  destruct (c !! cacheKey email) as [entry|]; [destruct (_ <? _)|]; simpl.
  - repeat split; try done. apply delete_subseteq.
  - repeat split; done.
  - repeat split; done.
Qed.

(** X21.  After a mailbox is invalidated, alone or with all the others, its next
    read requests the API; invalidating one mailbox changes no answer for
    another one. *)
Theorem invalidation_forces_a_request call email c :
  requested (fst (getMessages call email false (invalidateCache email c))) = true /\
  requested (fst (getMessages call email false (invalidateAllCaches c))) = true /\
  (forall email' bypassCache, email' <> email ->
     fst (getMessages call email' bypassCache (invalidateCache email c)) =
     fst (getMessages call email' bypassCache c)).
Proof.
  split; [|split].
  - rewrite getMessages_miss; [apply fetch_requests|].
    unfold invalidateCache, CacheService.invalidate. apply lookup_delete_eq.
  - rewrite getMessages_miss; [apply fetch_requests|].
    unfold invalidateAllCaches.
    by rewrite invalidatePattern_lookup, cacheKey_matches.
  - intros email' bypassCache Hne.
    unfold getMessages, invalidateCache, CacheService.invalidate, CacheService.get, fetch.
    destruct bypassCache; simpl; [by destruct (fetched call)|].
    rewrite lookup_delete_ne by (intros H; by apply cacheKey_inj in H).
    destruct (c !! cacheKey email') as [entry|]; [destruct (_ <? _)|]; simpl; try done.
    all: by destruct (fetched call).
Qed.

(** X22.  A call reads and writes only the entry of its own mailbox, and a forced
    refresh does not read the cache at all. *)
Theorem getMessages_touches_its_own_entry call email bypassCache c :
  (forall key, key <> cacheKey email ->
     snd (getMessages call email bypassCache c) !! key = c !! key) /\
  (forall c', c !! cacheKey email = c' !! cacheKey email ->
     fst (getMessages call email bypassCache c) =
     fst (getMessages call email bypassCache c')) /\
  (forall c', fst (getMessages call email true c) = fst (getMessages call email true c')).
Proof.
  split; [|split].
  - intros key Hne. unfold getMessages.
    destruct bypassCache; simpl; [by apply fetch_lookup|].
    pose proof (get_lookup (read_at call) (cacheKey email) c key) as H.
    rewrite decide_False in H by done.
    destruct (CacheService.get _ _ _) as [[cached|] c']; simpl in *; [done|].
    by rewrite fetch_lookup.
  - intros c' H. unfold getMessages, CacheService.get, fetch. rewrite H.
    destruct bypassCache; simpl; [by destruct (fetched call)|].
    destruct (c' !! cacheKey email) as [entry|]; [destruct (_ <? _)|]; simpl; try done.
    all: by destruct (fetched call).
  - intros c'. unfold getMessages, fetch. simpl. by destruct (fetched call).
Qed.

End Mailbox.

(** An entry that expired at time 200 is deleted by the read at 200; the read
    at 300 answers the same with and without that deletion. *)
Lemma purge_on_read_is_invisible_witness :
  let c := CacheService.set 0 "k" 7 100 (∅ : gmap string (CacheService.CacheEntry Z)) in
  200 <= 300 /\
  snd (CacheService.get 200 "k" c) = ∅ /\
  fst (CacheService.get 300 "k" (snd (CacheService.get 200 "k" c))) =
    fst (CacheService.get 300 "k" c).
Proof.
  intros c. split; [lia|]. split; [reflexivity|].
  apply (purge_on_read_is_invisible 200 300 "k" "k" c). lia.
Defined.

(** A mailbox fetched at 150 ms is answered from the cache at 9000 ms. *)
Lemma fetched_mailbox_is_cached_for_ten_seconds_witness :
  let call0 := {| EmailService.read_at := 0;
                  EmailService.fetched := Resolves [Example.verification_mail];
                  EmailService.stored_at := 150 |} in
  let call1 := {| EmailService.read_at := 9000;
                  EmailService.fetched := Rejects "unreachable";
                  EmailService.stored_at := 9100 |} in
  let first := EmailService.getMessages call0 "a@b.c" false ∅ in
  let second := EmailService.getMessages call1 "a@b.c" false (snd first) in
  EmailService.requested (fst first) = true /\
  EmailService.requested (fst second) = false /\
  EmailService.messages (fst second) = [Example.verification_mail].
Proof.
  intros call0 call1 first second.
  assert (Hreq : EmailService.requested (fst first) = true) by (vm_compute; reflexivity).
  destruct (fetched_mailbox_is_cached_for_ten_seconds call0 call1 "a@b.c" false ∅
              [Example.verification_mail] Hreq eq_refl) as (_ & H2 & H3).
  split; [exact Hreq|]. split; [exact H2|]. exact (proj1 (H3 H2)).
Defined.

(** A forced refresh that fails keeps the entry stored before. *)
Lemma failed_request_answers_empty_list_witness :
  let call := {| EmailService.read_at := 500;
                 EmailService.fetched := Rejects "timeout";
                 EmailService.stored_at := 600 |} in
  let c := CacheService.set 0 (EmailService.cacheKey "a@b.c") [Example.verification_mail]
             EmailService.cacheTTL ∅ in
  let out := EmailService.getMessages call "a@b.c" true c in
  EmailService.fetched call = Rejects "timeout" /\
  EmailService.messages (fst out) = [] /\
  snd out = c.
Proof.
  intros call c out.
  destruct (failed_request_answers_empty_list call "a@b.c" true c "timeout" eq_refl)
    as (H1 & H2 & _).
  destruct (H2 eq_refl) as [Hreq Hc].
  split; [reflexivity|]. split; [exact (H1 Hreq)|exact Hc].
Defined.

Global Instance isolated_po taskId : PreOrder (isolated taskId).
Proof.
  split.
  - intros w. repeat split; try done; exists []; by rewrite app_nil_r.
  - intros w1 w2 w3 (Ht & Hf & Hc & [a Ha] & [r Hr] & [e He])
      (Ht' & Hf' & Hc' & [a' Ha'] & [r' Hr'] & [e' He']).
    split; [|split; [|split; [|split; [|split]]]].
    + intros other Hne. by rewrite Ht', Ht.
    + intros other Hne. by rewrite Hf', Hf.
    + congruence.
    + exists (a ++ a'). by rewrite Ha', Ha, app_assoc.
    + exists (r ++ r'). by rewrite Hr', Hr, app_assoc.
    + exists (e ++ e'). by rewrite He', He, app_assoc.
Qed.

Lemma isolated_task taskId f w : isolated taskId w (on_task taskId f w).
Proof.
  repeat split; try done; try (exists []; by rewrite app_nil_r).
  intros other Hne. simpl. by rewrite lookup_alter_ne.
Qed.

Lemma isolated_new_task taskId t w : isolated taskId w (with_tasks (<[taskId := t]>) w).
Proof.
  repeat split; try done; try (exists []; by rewrite app_nil_r).
  intros other Hne. simpl. by rewrite lookup_insert_ne.
Qed.

Lemma isolated_record taskId evs w : isolated taskId w (record evs w).
Proof.
  repeat split; try done; try (exists []; by rewrite app_nil_r). by exists evs.
Qed.

Lemma isolated_set_status taskId s w : isolated taskId w (set_status taskId s w).
Proof.
  unfold set_status. etransitivity; [apply isolated_task|apply isolated_record].
Qed.

Lemma isolated_handles taskId b c p w : isolated taskId w (with_handles b c p w).
Proof. repeat split; try done; exists []; by rewrite app_nil_r. Qed.

Lemma isolated_cookieFile taskId cookies w :
  isolated taskId w (with_cookieFiles (<[taskId := cookies]>) w).
Proof.
  repeat split; try done; try (exists []; by rewrite app_nil_r).
  intros other Hne. simpl. by rewrite lookup_insert_ne.
Qed.

Lemma isolated_account taskId row w :
  isolated taskId w (with_database (replit_accounts w ++ [row]) (cookies_table w) w).
Proof.
  repeat split; try done; try (exists []; by rewrite app_nil_r). by exists [row].
Qed.

Lemma isolated_cookie_rows taskId rows w :
  isolated taskId w (with_database (replit_accounts w) (cookies_table w ++ rows) w).
Proof.
  repeat split; try done; try (exists []; by rewrite app_nil_r). by exists rows.
Qed.

Create HintDb isolated discriminated.

Global Hint Resolve isolated_task isolated_new_task isolated_record isolated_set_status
  isolated_handles isolated_cookieFile isolated_account isolated_cookie_rows : isolated.

Ltac isolated_leaf :=
  first
    [ solve [auto 1 with isolated nocore]
    | etransitivity; [apply isolated_handles|apply isolated_record]
    | etransitivity; [apply isolated_cookieFile|apply isolated_record] ].

Ltac isolated_step :=
  first
    [ solve [auto 1 with isolated nocore]
    | match goal with
      | |- PreOrder _ => typeclasses eauto
      | |- steady _ (ret _) => apply steady_ret
      | |- steady _ (throw _) => apply steady_throw
      | |- steady _ (gets _) => apply steady_gets
      | |- steady _ (await _) => apply steady_await
      | |- steady _ (bind _ _) => apply steady_bind; [| |intros ?; cbv beta]
      | |- steady _ (try_catch _ _) => apply steady_try_catch; [| |intros ?; cbv beta]
      | |- steady _ (try_finally _ _) => apply steady_try_finally; [| |intros ?]
      | |- steady _ (modify _) => apply steady_modify; intros ?; try isolated_leaf
      | |- steady _ (match ?x with _ => _ end) => destruct x
      end ].

Ltac alone := repeat isolated_step; eauto with isolated.

Section Isolation.

Variable svc : Service.
Variable sc : Scenario.
Variable taskId : string.

Lemma notifyUpdate_isolated : steady (isolated taskId) (notifyUpdate taskId).
Proof. unfold notifyUpdate. alone. Qed.

Hint Resolve notifyUpdate_isolated : isolated.

Lemma addLog_isolated l : steady (isolated taskId) (addLog taskId l).
Proof. unfold addLog. alone. Qed.

Lemma addDebugLog_isolated l : steady (isolated taskId) (addDebugLog svc taskId l).
Proof. unfold addDebugLog. alone. Qed.

Lemma updateStep_isolated stepId s l :
  steady (isolated taskId) (updateStep taskId stepId s l).
Proof. unfold updateStep. alone. Qed.

Lemma close_all_isolated : steady (isolated taskId) close_all.
Proof. unfold close_all. alone. Qed.

Hint Resolve addLog_isolated addDebugLog_isolated updateStep_isolated
  close_all_isolated : isolated.

Lemma sleep_isolated ms : steady (isolated taskId) (sleep ms).
Proof. unfold sleep. alone. Qed.

Lemma saveCookies_isolated : steady (isolated taskId) (saveCookies sc taskId).
Proof. unfold saveCookies. alone. Qed.

Lemma loadCookies_isolated : steady (isolated taskId) (loadCookies sc taskId).
Proof. unfold loadCookies. alone. Qed.

Lemma solveCaptcha_isolated : steady (isolated taskId) (solveCaptcha svc sc taskId).
Proof. unfold solveCaptcha. alone. Qed.

Lemma injectCaptchaSolution_isolated :
  steady (isolated taskId) (injectCaptchaSolution svc sc taskId).
Proof. unfold injectCaptchaSolution. alone. Qed.

Hint Resolve sleep_isolated saveCookies_isolated loadCookies_isolated
  solveCaptcha_isolated injectCaptchaSolution_isolated : isolated.

Lemma saveAccountToDatabase_isolated cookies verified :
  steady (isolated taskId) (saveAccountToDatabase svc sc taskId cookies verified).
Proof. unfold saveAccountToDatabase. alone. Qed.

Lemma poll_isolated budget attempts :
  steady (isolated taskId) (poll svc sc taskId budget attempts).
Proof.
  revert attempts. induction budget as [|b IH]; intros attempts; simpl; alone.
Qed.

Lemma close_in_verify_isolated r o : steady (isolated taskId) (close_in_verify r o).
Proof. unfold close_in_verify. alone. destruct r; isolated_leaf. Qed.

Hint Resolve saveAccountToDatabase_isolated poll_isolated
  close_in_verify_isolated : isolated.

Lemma verifyEmail_isolated cookies :
  steady (isolated taskId) (verifyEmail svc sc taskId cookies).
Proof. unfold verifyEmail. alone. Qed.

Hint Resolve verifyEmail_isolated : isolated.

Lemma report_other_errors_isolated content patterns detected :
  steady (isolated taskId) (report_other_errors taskId content patterns detected).
Proof.
  revert detected. induction patterns as [|[p m] rest IH]; intros detected; simpl;
    alone.
Qed.

Lemma report_alerts_isolated texts :
  steady (isolated taskId) (report_alerts taskId texts).
Proof. induction texts as [|t rest IH]; simpl; alone. Qed.

Hint Resolve report_other_errors_isolated report_alerts_isolated : isolated.

Lemma resubmit_isolated : steady (isolated taskId) (resubmit svc sc taskId).
Proof. unfold resubmit. alone. Qed.

Hint Resolve resubmit_isolated : isolated.

Lemma classify_isolated content :
  steady (isolated taskId) (classify svc sc taskId content).
Proof. unfold classify. alone. Qed.

Hint Resolve classify_isolated : isolated.

Lemma submit_form_isolated n : steady (isolated taskId) (submit_form svc sc taskId n).
Proof. unfold submit_form. alone. Qed.

Hint Resolve submit_form_isolated : isolated.

Lemma signup_isolated n : steady (isolated taskId) (signup svc sc taskId n).
Proof. unfold signup. alone. Qed.

Lemma attemptSignup_isolated n : steady (isolated taskId) (attemptSignup svc sc taskId n).
Proof. unfold attemptSignup. alone. apply signup_isolated. Qed.

End Isolation.

Global Hint Resolve notifyUpdate_isolated addLog_isolated addDebugLog_isolated
  updateStep_isolated sleep_isolated : isolated.

Section IsolatedRun.

Variable svc : Service.
Variable env : Env.
Variable taskId : string.

Lemma reset_for_retry_isolated n :
  steady (isolated taskId) (reset_for_retry svc env taskId n).
Proof. unfold reset_for_retry. alone. Qed.

Lemma retry_loop_isolated remaining : forall n,
  steady (isolated taskId)
    (retry_loop svc env (fun i n => attemptSignup svc (scenario env n) i n)
       taskId remaining n).
Proof.
  induction remaining as [|r IH]; intros n; simpl.
  - alone.
  - apply steady_bind; [apply _| |intros _].
    { destruct (1 <? n)%nat; [apply reset_for_retry_isolated|alone]. }
    apply steady_bind; [apply _|alone|intros _].
    apply steady_bind; [apply _|apply attemptSignup_isolated|intros [|]]; [alone|apply IH].
Qed.

Lemma runAutomation_isolated : steady (isolated taskId) (runAutomation svc env taskId).
Proof.
  unfold runAutomation, runAutomationWith. alone.
  - apply retry_loop_isolated.
Qed.

Lemma fatal_error_isolated e : steady (isolated taskId) (fatal_error env taskId e).
Proof. unfold fatal_error. alone. Qed.

End IsolatedRun.

(** X23.  The work on one task leaves the other tasks alone: an attempt, the retry
    loop and the creation of a task change no record and no cookie file of
    another task and no registration of a callback, and they only add to
    the rows of the database. *)
Theorem a_task_leaves_the_others_alone svc env email taskId n w :
  isolated taskId w (snd (attemptSignup svc (scenario env n) taskId n w)) /\
  isolated taskId w (snd (runAutomation svc env taskId w)) /\
  isolated (nanoid env) w (snd (createReplitAccount svc env email w)).
Proof.
  split; [apply attemptSignup_isolated|]. split; [apply runAutomation_isolated|].
  revert w. change (steady (isolated (nanoid env)) (createReplitAccount svc env email)).
  unfold createReplitAccount, createReplitAccountWith. alone.
  - apply runAutomation_isolated.
  - apply fatal_error_isolated.
Qed.
